(** * The mock store of the todo demo (src/react-19/demo/src/api/mockApi.js)

    A shallow embedding of the module state of [mockApi.js] and of the nine
    operations of [mockApi], followed by the properties of the store.

    JavaScript objects and arrays are heap cells reached through references,
    so that the objects a caller receives are the very objects the store
    keeps.  Every operation of the source awaits [delay()] first and then
    runs its body without another suspension point: under JavaScript's
    run-to-completion scheduling a body is one atomic step, and an
    interleaving of pending calls is the sequence in which their bodies
    run.  The bodies are what is modelled here. *)

From stdpp Require Import gmap strings list fin_maps sorting.

Local Open Scope string_scope.
Local Open Scope list_scope.
Local Open Scope Z_scope.

(** ** JavaScript values *)

(** References to heap cells (objects and arrays). *)
Definition loc := positive.

(** The values the store handles.  [VNum] stands for the integer-valued
    numbers: the two id counters start at 1 and only grow by [++], which is
    exact on the numbers a process can count to.  [VNaN] is kept apart
    because it is the one value that [===] does not relate to itself. *)
Inductive value : Type :=
  | VUndefined
  | VNull
  | VBool (b : bool)
  | VNum (n : Z)
  | VNaN
  | VStr (s : string)
  | VRef (l : loc).

Global Instance value_eq_dec : EqDecision value.
Proof. solve_decision. Defined.

(** [a === b] *)
Definition strict_eq (a b : value) : bool :=
  match a, b with
  | VUndefined, VUndefined => true
  | VNull, VNull => true
  | VBool x, VBool y => bool_decide (x = y)
  | VNum x, VNum y => bool_decide (x = y)
  | VStr x, VStr y => bool_decide (x = y)
  | VRef x, VRef y => bool_decide (x = y)
  | _, _ => false
  end.

(** [a !== b] *)
Definition strict_neq (a b : value) : bool := negb (strict_eq a b).

(** ToBoolean: what [if (v)] and [!v] look at. *)
Definition truthy (v : value) : bool :=
  match v with
  | VUndefined | VNull | VNaN => false
  | VBool b => b
  | VNum n => negb (bool_decide (n = 0))
  | VStr s => negb (bool_decide (s = EmptyString))
  | VRef _ => true
  end.

(** [!v] *)
Definition js_not (v : value) : value := VBool (negb (truthy v)).

(** ** Heap *)

(** An object is the finite map of its own properties; an array is the
    sequence of its elements. *)
Inductive cell : Type :=
  | CObj (o : gmap string value)
  | CArr (xs : list value).

(** The module state: the four [let] variables of the source, and the heap
    their references point into. *)
Record store : Type := Store {
  heap : gmap loc cell;
  todoListsData : loc;
  todoItemsData : loc;
  nextListId : Z;
  nextItemId : Z;
}.

Definition set_heap (h : gmap loc cell) (st : store) : store :=
  Store h (todoListsData st) (todoItemsData st) (nextListId st) (nextItemId st).

(** Property read [o.k] on an object: absent properties are [undefined]. *)
Definition prop (o : gmap string value) (k : string) : value :=
  default VUndefined (o !! k).

(** The object a reference points to (no properties when it points to
    none). *)
Definition obj_at (h : gmap loc cell) (l : loc) : gmap string value :=
  match h !! l with
  | Some (CObj o) => o
  | _ => ∅
  end.

(** The elements of the array a reference points to. *)
Definition arr_at (h : gmap loc cell) (l : loc) : list value :=
  match h !! l with
  | Some (CArr xs) => xs
  | _ => []
  end.

(** The object an element [v] of one of the store's arrays stands for.  The
    arrays only ever hold references to objects (see [store_wf]). *)
Definition obj_of (h : gmap loc cell) (v : value) : gmap string value :=
  match v with
  | VRef l => obj_at h l
  | _ => ∅
  end.

(** [v.k] for such an element. *)
Definition field (h : gmap loc cell) (v : value) (k : string) : value :=
  prop (obj_of h v) k.

(** ** Completions and the monad of operation bodies *)

(** [new Error(msg)] *)
Inductive exn : Type := Error (msg : string).

(** An async body either returns (the promise resolves) or throws (the
    promise rejects). *)
Inductive completion (A : Type) : Type :=
  | Resolve (a : A)
  | Reject (e : exn).
Arguments Resolve {A} a.
Arguments Reject {A} e.

(** A body is a state transformer; what was written before a [throw]
    stays written. *)
Definition js (A : Type) : Type := store → completion A * store.

Global Instance js_ret : MRet js := λ A a st, (Resolve a, st).

Global Instance js_bind : MBind js := λ A B f m st,
  match m st with
  | (Resolve a, st') => f a st'
  | (Reject e, st') => (Reject e, st')
  end.

Definition throw {A : Type} (e : exn) : js A := λ st, (Reject e, st).

Definition gets {A : Type} (f : store → A) : js A := λ st, (Resolve (f st), st).

Definition modify (f : store → store) : js unit := λ st, (Resolve tt, f st).

(** A new object or array literal: a cell at an unused address. *)
Definition alloc (c : cell) : js loc := λ st,
  let l := fresh (dom (heap st)) in
  (Resolve l, set_heap (<[l := c]> (heap st)) st).

(** [a.push(v)] *)
Definition array_push (a : loc) (v : value) : js unit :=
  modify (λ st, set_heap (<[a := CArr (arr_at (heap st) a ++ [v])]> (heap st)) st).

(** [a.filter(p)]: a new array; [p] reads the heap. *)
Definition array_filter (a : loc) (p : gmap loc cell → value → bool) : js loc :=
  h ← gets heap;
  alloc (CArr (filter (p h) (arr_at h a))).

(** [a.find(p)]: the first element that satisfies [p], or [undefined]. *)
Definition array_find (a : loc) (p : gmap loc cell → value → bool) : js value :=
  h ← gets heap;
  mret (default VUndefined (List.find (p h) (arr_at h a))).

(** [v.k = w] on a reference to an object (the bodies only assign to objects
    of the two collections). *)
Definition set_field (v : value) (k : string) (w : value) : js unit :=
  modify (λ st,
    match v with
    | VRef l => set_heap (<[l := CObj (<[k := w]> (obj_at (heap st) l))]> (heap st)) st
    | _ => st
    end).

(** The properties [Object.assign] writes as own properties of its target:
    all the own properties of [updates] except [__proto__].  [Object.assign]
    assigns ([target[key] = value]), and the assignment to that key reaches
    the setter that the objects of the collections, made by object literals,
    inherit: it creates no own property and leaves the own properties alone.
    What the setter does to the prototype of the target is outside this
    model, whose objects are their own properties: a changed prototype,
    which no body of the module can observe (all they read are the own
    properties [id], [listId] and [completed]), and the [TypeError] for a
    value that has the target on its prototype chain. *)
Definition own_writes (updates : gmap string value) : gmap string value :=
  delete "__proto__" updates.

(** [Object.assign(v, updates)]: every own property of [updates] is assigned
    to the target.  [updates] is given by its own enumerable properties,
    which is all that [Object.assign] reads of it. *)
Definition object_assign (v : value) (updates : gmap string value) : js unit :=
  modify (λ st,
    match v with
    | VRef l =>
        set_heap (<[l := CObj (own_writes updates ∪ obj_at (heap st) l)]> (heap st)) st
    | _ => st
    end).

(** ** The operations of [mockApi] *)

(** [nextListId++] and [nextItemId++] *)
Definition post_incr_nextListId : js Z := λ st,
  (Resolve (nextListId st),
   Store (heap st) (todoListsData st) (todoItemsData st) (nextListId st + 1) (nextItemId st)).

Definition post_incr_nextItemId : js Z := λ st,
  (Resolve (nextItemId st),
   Store (heap st) (todoListsData st) (todoItemsData st) (nextListId st) (nextItemId st + 1)).

(** [todoListsData = a] and [todoItemsData = a] *)
Definition assign_todoListsData (a : loc) : js unit :=
  modify (λ st, Store (heap st) a (todoItemsData st) (nextListId st) (nextItemId st)).

Definition assign_todoItemsData (a : loc) : js unit :=
  modify (λ st, Store (heap st) (todoListsData st) a (nextListId st) (nextItemId st)).

(** [{ success: true }] *)
Definition success : cell := CObj {[ "success" := VBool true ]}.

Definition getAllLists : js value :=
  lists ← gets todoListsData;
  h ← gets heap;
  copy ← alloc (CArr (arr_at h lists));
  mret (VRef copy).

(** The object literals of [createList] and [createItem]; [now] is what
    [new Date().toISOString()] reads off the clock. *)
Definition list_literal (id : Z) (title : value) (now : string) : gmap string value :=
  <["id" := VNum id]> (<["title" := title]> {[ "createdAt" := VStr now ]}).

Definition item_literal (id : Z) (listId title priority : value) (now : string)
    : gmap string value :=
  <["id" := VNum id]> (<["listId" := listId]> (<["title" := title]>
    (<["priority" := priority]> (<["completed" := VBool false]>
    {[ "createdAt" := VStr now ]})))).

Definition createList (title : value) (now : string) : js value :=
  id ← post_incr_nextListId;
  newList ← alloc (CObj (list_literal id title now));
  lists ← gets todoListsData;
  array_push lists (VRef newList);;
  mret (VRef newList).

Definition updateList (id title : value) : js value :=
  lists ← gets todoListsData;
  list ← array_find lists (λ h l, strict_eq (field h l "id") id);
  if negb (truthy list) then throw (Error "List not found")
  else
    set_field list "title" title;;
    mret list.

Definition deleteList (id : value) : js value :=
  lists ← gets todoListsData;
  lists' ← array_filter lists (λ h l, strict_neq (field h l "id") id);
  assign_todoListsData lists';;
  items ← gets todoItemsData;
  items' ← array_filter items (λ h item, strict_neq (field h item "listId") id);
  assign_todoItemsData items';;
  ack ← alloc success;
  mret (VRef ack).

Definition getItemsByList (listId : value) : js value :=
  items ← gets todoItemsData;
  result ← array_filter items (λ h item, strict_eq (field h item "listId") listId);
  mret (VRef result).

Definition createItem (listId title priority : value) (now : string) : js value :=
  id ← post_incr_nextItemId;
  newItem ← alloc (CObj (item_literal id listId title priority now));
  items ← gets todoItemsData;
  array_push items (VRef newItem);;
  mret (VRef newItem).

Definition updateItem (id : value) (updates : gmap string value) : js value :=
  items ← gets todoItemsData;
  item ← array_find items (λ h i, strict_eq (field h i "id") id);
  if negb (truthy item) then throw (Error "Item not found")
  else
    object_assign item updates;;
    mret item.

Definition deleteItem (id : value) : js value :=
  items ← gets todoItemsData;
  items' ← array_filter items (λ h i, strict_neq (field h i "id") id);
  assign_todoItemsData items';;
  ack ← alloc success;
  mret (VRef ack).

Definition toggleItem (id : value) : js value :=
  items ← gets todoItemsData;
  item ← array_find items (λ h i, strict_eq (field h i "id") id);
  if negb (truthy item) then throw (Error "Item not found")
  else
    h ← gets heap;
    set_field item "completed" (js_not (field h item "completed"));;
    mret item.

(** The module as it is when loaded: two empty arrays, both counters at 1. *)
Definition init : store :=
  Store (<[2%positive := CArr []]> {[ 1%positive := CArr [] ]})
        1%positive 2%positive 1 1.


(** ** Calls and runs *)

(** One call of the API, with its arguments. *)
Inductive op : Type :=
  | GetAllLists
  | CreateList (title : value) (now : string)
  | UpdateList (id title : value)
  | DeleteList (id : value)
  | GetItemsByList (listId : value)
  | CreateItem (listId title priority : value) (now : string)
  | UpdateItem (id : value) (updates : gmap string value)
  | DeleteItem (id : value)
  | ToggleItem (id : value).

Definition call (o : op) : js value :=
  match o with
  | GetAllLists => getAllLists
  | CreateList title now => createList title now
  | UpdateList id title => updateList id title
  | DeleteList id => deleteList id
  | GetItemsByList listId => getItemsByList listId
  | CreateItem listId title priority now => createItem listId title priority now
  | UpdateItem id updates => updateItem id updates
  | DeleteItem id => deleteItem id
  | ToggleItem id => toggleItem id
  end.

(** The store after the bodies of [ops] have run in this order. *)
Fixpoint run (ops : list op) (st : store) : store :=
  match ops with
  | [] => st
  | o :: ops => run ops (snd (call o st))
  end.

(** ** What the store holds *)

(** The elements of the two collections, as references and as objects. *)
Definition list_refs (st : store) : list value := arr_at (heap st) (todoListsData st).
Definition item_refs (st : store) : list value := arr_at (heap st) (todoItemsData st).

Definition lists (st : store) : list (gmap string value) :=
  obj_of (heap st) <$> list_refs st.
Definition items (st : store) : list (gmap string value) :=
  obj_of (heap st) <$> item_refs st.

(** The callbacks of the source, on an element and on an object. *)
Definition has_id (id : value) (o : gmap string value) : bool :=
  strict_eq (prop o "id") id.
Definition in_list (listId : value) (o : gmap string value) : bool :=
  strict_eq (prop o "listId") listId.

(** An element of a store array refers to an object of the heap. *)
Definition is_obj_ref (h : gmap loc cell) (v : value) : Prop :=
  ∃ l o, v = VRef l ∧ h !! l = Some (CObj o).

(** The shape every reachable store has. *)
Record store_wf (st : store) : Prop := StoreWf {
  wf_lists_arr : ∃ xs, heap st !! todoListsData st = Some (CArr xs);
  wf_items_arr : ∃ xs, heap st !! todoItemsData st = Some (CArr xs);
  wf_distinct : todoListsData st ≠ todoItemsData st;
  wf_list_refs : Forall (is_obj_ref (heap st)) (list_refs st);
  wf_item_refs : Forall (is_obj_ref (heap st)) (item_refs st);
  wf_nodup : NoDup (list_refs st ++ item_refs st);
}.

(** [a.find(p)] on the two collections. *)
Definition find_list (id : value) (st : store) : value :=
  default VUndefined (List.find (λ l, strict_eq (field (heap st) l "id") id) (list_refs st)).
Definition find_item (id : value) (st : store) : value :=
  default VUndefined (List.find (λ i, strict_eq (field (heap st) i "id") id) (item_refs st)).

(** ** The collections as sequences of objects *)

(** What the collections and counters hold, without the addresses. *)
Record snapshot : Type := Snapshot {
  s_lists : list (gmap string value);
  s_items : list (gmap string value);
  s_nextListId : Z;
  s_nextItemId : Z;
}.

Definition observe (st : store) : snapshot :=
  Snapshot (lists st) (items st) (nextListId st) (nextItemId st).

(** Rewrite the first object that satisfies [p], as [find] followed by an
    assignment to the found object does. *)
Fixpoint update_first (p : gmap string value → bool)
    (f : gmap string value → gmap string value)
    (xs : list (gmap string value)) : list (gmap string value) :=
  match xs with
  | [] => []
  | x :: xs => if p x then f x :: xs else x :: update_first p f xs
  end.

(** The reading of each body on snapshots; [call_observe] shows that the
    bodies act on the objects of the collections exactly like this. *)
Definition step (o : op) (s : snapshot) : snapshot :=
  match o with
  | GetAllLists | GetItemsByList _ => s
  | CreateList title now =>
      Snapshot (s_lists s ++ [list_literal (s_nextListId s) title now]) (s_items s)
               (s_nextListId s + 1) (s_nextItemId s)
  | UpdateList id title =>
      Snapshot (update_first (has_id id) (insert "title" title) (s_lists s)) (s_items s)
               (s_nextListId s) (s_nextItemId s)
  | DeleteList id =>
      Snapshot (filter (λ o, negb (has_id id o)) (s_lists s))
               (filter (λ o, negb (in_list id o)) (s_items s))
               (s_nextListId s) (s_nextItemId s)
  | CreateItem listId title priority now =>
      Snapshot (s_lists s)
               (s_items s ++ [item_literal (s_nextItemId s) listId title priority now])
               (s_nextListId s) (s_nextItemId s + 1)
  | UpdateItem id updates =>
      Snapshot (s_lists s) (update_first (has_id id) (union (own_writes updates)) (s_items s))
               (s_nextListId s) (s_nextItemId s)
  | DeleteItem id =>
      Snapshot (s_lists s) (filter (λ o, negb (has_id id o)) (s_items s))
               (s_nextListId s) (s_nextItemId s)
  | ToggleItem id =>
      Snapshot (s_lists s)
               (update_first (has_id id)
                  (λ o, <["completed" := js_not (prop o "completed")]> o) (s_items s))
               (s_nextListId s) (s_nextItemId s)
  end.

(** ** Ids *)

(** The ids of a sequence of objects, in order. *)
Definition ids (xs : list (gmap string value)) : list value :=
  (λ o, prop o "id") <$> xs.

(** Every object carries a number below [n]. *)
Definition ids_below (n : Z) (xs : list (gmap string value)) : Prop :=
  Forall (λ o, ∃ k, prop o "id" = VNum k ∧ k < n) xs.

(** The Lists carry distinct numbers below [nextListId]. *)
Definition list_ids_ok (s : snapshot) : Prop :=
  ids_below (s_nextListId s) (s_lists s) ∧ NoDup (ids (s_lists s)).

(** The Items carry distinct numbers below [nextItemId]. *)
Definition item_ids_ok (s : snapshot) : Prop :=
  ids_below (s_nextItemId s) (s_items s) ∧ NoDup (ids (s_items s)).

(** The calls that cannot write an [id] property: all of them except
    [updateItem] with an [id] among the updates. *)
Definition keeps_ids (o : op) : bool :=
  match o with
  | UpdateItem _ updates => bool_decide (updates !! "id" = None)
  | _ => true
  end.

(** The id of the object a call resolves with. *)
Definition returned_id (o : op) (st : store) : value :=
  match call o st with
  | (Resolve v, st') => field (heap st') v "id"
  | (Reject _, _) => VUndefined
  end.

(** The ids handed out by the [createList] calls, and by the [createItem]
    calls, of a run, in order. *)
Fixpoint list_ids_issued (ops : list op) (st : store) : list value :=
  match ops with
  | [] => []
  | o :: ops =>
      match o with
      | CreateList _ _ => [returned_id o st]
      | _ => []
      end ++ list_ids_issued ops (snd (call o st))
  end.

Fixpoint item_ids_issued (ops : list op) (st : store) : list value :=
  match ops with
  | [] => []
  | o :: ops =>
      match o with
      | CreateItem _ _ _ _ => [returned_id o st]
      | _ => []
      end ++ item_ids_issued ops (snd (call o st))
  end.

(** ** Two runs used as examples *)

(** A List with one Item. *)
Definition groceries : list op :=
  [ CreateList (VStr "Groceries") "2025-01-01T00:00:00.000Z";
    CreateItem (VNum 1) (VStr "Milk") (VStr "P2") "2025-01-01T00:00:01.000Z" ].

(** Creates, a toggle and a cascading delete, then creates again. *)
Definition scenario : list op :=
  groceries ++
  [ ToggleItem (VNum 1);
    CreateItem (VNum 1) (VStr "Eggs") (VStr "P1") "2025-01-01T00:00:02.000Z";
    DeleteList (VNum 1);
    GetItemsByList (VNum 1);
    GetAllLists;
    CreateList (VStr "Chores") "2025-01-01T00:00:03.000Z";
    CreateItem (VNum 2) (VStr "Dishes") (VStr "P3") "2025-01-01T00:00:04.000Z";
    DeleteItem (VNum 3) ].

(** ** Referential integrity *)

(** Some List of the store has this id. *)
Definition knows_list (s : snapshot) (listId : value) : Prop :=
  Exists (λ l, has_id listId l = true) (s_lists s).

(** Every Item's [listId] is the id of a List of the store. *)
Definition ref_integrity (s : snapshot) : Prop :=
  Forall (λ item, knows_list s (prop item "listId")) (s_items s).

(** The calls that give an Item a [listId] take it from a List of [s], the
    store their body runs on: [createItem] with its [listId] argument,
    [updateItem] with a [listId] among the updates.  The body runs after
    [await delay()], so [s] is the store that the bodies which ran in the
    meantime have left, not the store at the time of the call. *)
Definition names_known_list (o : op) (s : snapshot) : Prop :=
  match o with
  | CreateItem listId _ _ _ => knows_list s listId
  | UpdateItem _ updates =>
      match updates !! "listId" with
      | Some listId => knows_list s listId
      | None => True
      end
  | _ => True
  end.

(** This holds of every body of a run, each at the store it runs on: the
    store after the bodies that ran before it. *)
Fixpoint names_known_lists (ops : list op) (st : store) : Prop :=
  match ops with
  | [] => True
  | o :: ops => names_known_list o (observe st) ∧ names_known_lists ops (snd (call o st))
  end.

Global Instance knows_list_dec s listId : Decision (knows_list s listId).
Proof. unfold knows_list. apply _. Defined.

Global Instance ref_integrity_dec s : Decision (ref_integrity s).
Proof. unfold ref_integrity. apply _. Defined.

Global Instance names_known_list_dec o s : Decision (names_known_list o s).
Proof. destruct o; simpl; try apply _. destruct (updates !! "listId"); apply _. Defined.

Global Instance names_known_lists_dec ops st : Decision (names_known_lists ops st).
Proof. revert st. induction ops as [|o ops IH]; intros st; simpl; apply _. Defined.

(** An Item of a List that does not exist. *)
Definition orphan : list op :=
  [ CreateItem (VNum 42) (VStr "Milk") (VStr "P2") "2025-01-01T00:00:00.000Z" ].

(** [deleteList(1)] and then [createItem(1, ...)], both called while List 1
    exists: the two calls are pending together and their bodies run in this
    order. *)
Definition late_item : list op :=
  [ DeleteList (VNum 1);
    CreateItem (VNum 1) (VStr "Eggs") (VStr "P1") "2025-01-01T00:00:03.000Z" ].

(** ** Failure *)

(** No object of the sequence has this id. *)
Definition no_match (id : value) (xs : list (gmap string value)) : bool :=
  forallb (λ o, negb (has_id id o)) xs.

(** ** What creation stamps on an object *)

(** The id and the creation time of an object. *)
Definition stamp (o : gmap string value) : value * value :=
  (prop o "id", prop o "createdAt").

(** [updateItem] with a new id and a new creation time among the updates. *)
Definition restamp : list op :=
  groceries ++
  [ UpdateItem (VNum 1) (<["id" := VNum 99]> {[ "createdAt" := VStr "1970-01-01T00:00:00.000Z" ]}) ].

(** ** The caller's side *)

(** Code outside the module that holds a reference can write to the cell
    behind it: assigning a property of an object, or an element or the
    length of an array, replaces the content of that cell.  It cannot
    assign the module's variables. *)
Definition caller_writes (l : loc) (c : cell) (st : store) : store :=
  set_heap (<[l := c]> (heap st)) st.

(** The store holds no reference to the cell at [a]. *)
Definition unreferenced (a : loc) (st : store) : Prop :=
  is_Some (heap st !! a) ∧ a ≠ todoListsData st ∧ a ≠ todoItemsData st ∧
  (VRef a ∉ list_refs st) ∧ (VRef a ∉ item_refs st).

(** What the calls of a run resolve or reject with, in order. *)
Fixpoint results (ops : list op) (st : store) : list (completion value) :=
  match ops with
  | [] => []
  | o :: ops => fst (call o st) :: results ops (snd (call o st))
  end.

(** What happens after a read has resolved with the array at [a]: calls of
    the API, and writes of the caller to that array, in any order. *)
Inductive event : Type :=
  | Call (o : op)
  | Write (c : cell).

(** The calls among the events. *)
Fixpoint calls (evs : list event) : list op :=
  match evs with
  | [] => []
  | Call o :: evs => o :: calls evs
  | Write _ :: evs => calls evs
  end.

(** The store after the events, and what the calls among them resolve or
    reject with. *)
Fixpoint run_events (a : loc) (evs : list event) (st : store) : store :=
  match evs with
  | [] => st
  | Call o :: evs => run_events a evs (snd (call o st))
  | Write c :: evs => run_events a evs (caller_writes a c st)
  end.

Fixpoint results_events (a : loc) (evs : list event) (st : store)
    : list (completion value) :=
  match evs with
  | [] => []
  | Call o :: evs => fst (call o st) :: results_events a evs (snd (call o st))
  | Write c :: evs => results_events a evs (caller_writes a c st)
  end.

(** ** Order *)

(** One id was handed out before the other. *)
Definition id_lt (a b : value) : Prop :=
  match a, b with
  | VNum n, VNum m => n < m
  | _, _ => False
  end.

(** The objects are in the order in which they were created. *)
Definition in_creation_order (xs : list (gmap string value)) : Prop :=
  StronglySorted id_lt (ids xs).

(** ** Further vocabulary for runs *)

(** The calls that leave [completed] a boolean: all of them except
    [updateItem] with a [completed] among the updates that is not one. *)
Definition keeps_completed (o : op) : bool :=
  match o with
  | UpdateItem _ updates =>
      match updates !! "completed" with
      | None | Some (VBool _) => true
      | Some _ => false
      end
  | _ => true
  end.

(** Every object has a boolean [completed]. *)
Definition completed_bool (xs : list (gmap string value)) : Prop :=
  Forall (λ o, ∃ b, o !! "completed" = Some (VBool b)) xs.

Definition is_createList (o : op) : bool :=
  match o with CreateList _ _ => true | _ => false end.

Definition is_createItem (o : op) : bool :=
  match o with CreateItem _ _ _ _ => true | _ => false end.

Definition is_delete (o : op) : bool :=
  match o with DeleteList _ | DeleteItem _ => true | _ => false end.

(** The elements of the array a call resolves with. *)
Definition resolved_array (r : completion value * store) : list value :=
  match r with
  | (Resolve (VRef a), st') => arr_at (heap st') a
  | _ => []
  end.

(** What a delete keeps: the callbacks of its two [filter]s, on objects. *)
Definition keeps_list (o : op) (l : gmap string value) : bool :=
  match o with
  | DeleteList id => negb (has_id id l)
  | _ => true
  end.

Definition keeps_item (o : op) (i : gmap string value) : bool :=
  match o with
  | DeleteList id => negb (in_list id i)
  | DeleteItem id => negb (has_id id i)
  | _ => true
  end.

(** * Properties of the store *)

(** ** The bodies in closed form *)

Lemma getAllLists_eq st :
  getAllLists st =
    let a := fresh (dom (heap st)) in
    (Resolve (VRef a), set_heap (<[a := CArr (list_refs st)]> (heap st)) st).
Proof. reflexivity. Qed.

Lemma createList_eq title now st :
  createList title now st =
    let o := list_literal (nextListId st) title now in
    let l := fresh (dom (heap st)) in
    let h1 := <[l := CObj o]> (heap st) in
    (Resolve (VRef l),
     Store (<[todoListsData st := CArr (arr_at h1 (todoListsData st) ++ [VRef l])]> h1)
           (todoListsData st) (todoItemsData st) (nextListId st + 1) (nextItemId st)).
Proof. reflexivity. Qed.

Lemma createItem_eq listId title priority now st :
  createItem listId title priority now st =
    let o := item_literal (nextItemId st) listId title priority now in
    let l := fresh (dom (heap st)) in
    let h1 := <[l := CObj o]> (heap st) in
    (Resolve (VRef l),
     Store (<[todoItemsData st := CArr (arr_at h1 (todoItemsData st) ++ [VRef l])]> h1)
           (todoListsData st) (todoItemsData st) (nextListId st) (nextItemId st + 1)).
Proof. reflexivity. Qed.

Lemma deleteList_eq id st :
  deleteList id st =
    let h := heap st in
    let a1 := fresh (dom h) in
    let h1 := <[a1 := CArr (filter (λ l, strict_neq (field h l "id") id) (list_refs st))]> h in
    let a2 := fresh (dom h1) in
    let h2 := <[a2 := CArr (filter (λ i, strict_neq (field h1 i "listId") id)
                              (arr_at h1 (todoItemsData st)))]> h1 in
    let a3 := fresh (dom h2) in
    (Resolve (VRef a3),
     Store (<[a3 := success]> h2) a1 a2 (nextListId st) (nextItemId st)).
Proof. reflexivity. Qed.

Lemma deleteItem_eq id st :
  deleteItem id st =
    let h := heap st in
    let a1 := fresh (dom h) in
    let h1 := <[a1 := CArr (filter (λ i, strict_neq (field h i "id") id) (item_refs st))]> h in
    let a2 := fresh (dom h1) in
    (Resolve (VRef a2),
     Store (<[a2 := success]> h1) (todoListsData st) a1 (nextListId st) (nextItemId st)).
Proof. reflexivity. Qed.

Lemma getItemsByList_eq listId st :
  getItemsByList listId st =
    let h := heap st in
    let a := fresh (dom h) in
    (Resolve (VRef a),
     set_heap (<[a := CArr (filter (λ i, strict_eq (field h i "listId") listId)
                              (item_refs st))]> h) st).
Proof. reflexivity. Qed.

Lemma updateList_eq id title st :
  updateList id title st =
    let list := find_list id st in
    if truthy list
    then (Resolve list, snd (set_field list "title" title st))
    else (Reject (Error "List not found"), st).
Proof.
  unfold updateList, find_list, mbind, js_bind, array_find, gets, list_refs; simpl.
  destruct (truthy _); reflexivity.
Qed.

Lemma updateItem_eq id updates st :
  updateItem id updates st =
    let item := find_item id st in
    if truthy item
    then (Resolve item, snd (object_assign item updates st))
    else (Reject (Error "Item not found"), st).
Proof.
  unfold updateItem, find_item, mbind, js_bind, array_find, gets, item_refs; simpl.
  destruct (truthy _); reflexivity.
Qed.

Lemma toggleItem_eq id st :
  toggleItem id st =
    let item := find_item id st in
    if truthy item
    then (Resolve item,
          snd (set_field item "completed" (js_not (field (heap st) item "completed")) st))
    else (Reject (Error "Item not found"), st).
Proof.
  unfold toggleItem, find_item, mbind, js_bind, array_find, gets, item_refs; simpl.
  destruct (truthy _); reflexivity.
Qed.

(** ** Heap lemmas *)

Lemma fresh_lookup (h : gmap loc cell) : h !! fresh (dom h) = None.
Proof. apply not_elem_of_dom, is_fresh. Qed.

Lemma alloc_subseteq (h : gmap loc cell) c : h ⊆ <[fresh (dom h) := c]> h.
Proof. apply insert_subseteq, fresh_lookup. Qed.

Lemma arr_at_insert (h : gmap loc cell) l xs : arr_at (<[l := CArr xs]> h) l = xs.
Proof. unfold arr_at. by rewrite lookup_insert_eq. Qed.

Lemma arr_at_insert_ne (h : gmap loc cell) l l' c :
  l ≠ l' → arr_at (<[l := c]> h) l' = arr_at h l'.
Proof. intros. unfold arr_at. by rewrite lookup_insert_ne. Qed.

Lemma obj_at_insert (h : gmap loc cell) l o : obj_at (<[l := CObj o]> h) l = o.
Proof. unfold obj_at. by rewrite lookup_insert_eq. Qed.

Lemma obj_at_insert_ne (h : gmap loc cell) l l' c :
  l ≠ l' → obj_at (<[l := c]> h) l' = obj_at h l'.
Proof. intros. unfold obj_at. by rewrite lookup_insert_ne. Qed.

Lemma arr_at_weaken (h h' : gmap loc cell) l xs :
  h ⊆ h' → h !! l = Some (CArr xs) → arr_at h' l = arr_at h l.
Proof.
  intros Hsub Hl. unfold arr_at. by rewrite (lookup_weaken _ _ _ _ Hl Hsub), Hl.
Qed.

Lemma is_obj_ref_weaken (h h' : gmap loc cell) v :
  h ⊆ h' → is_obj_ref h v → is_obj_ref h' v.
Proof.
  intros Hsub (l & o & -> & Hl). exists l, o. eauto using lookup_weaken.
Qed.

Lemma obj_of_weaken (h h' : gmap loc cell) v :
  h ⊆ h' → is_obj_ref h v → obj_of h' v = obj_of h v.
Proof.
  intros Hsub (l & o & -> & Hl). simpl. unfold obj_at.
  by rewrite (lookup_weaken _ _ _ _ Hl Hsub), Hl.
Qed.

Lemma field_weaken (h h' : gmap loc cell) v k :
  h ⊆ h' → is_obj_ref h v → field h' v k = field h v k.
Proof. intros. unfold field. by erewrite obj_of_weaken. Qed.

Lemma is_obj_ref_insert_ne (h : gmap loc cell) l c v :
  v ≠ VRef l → is_obj_ref h v → is_obj_ref (<[l := c]> h) v.
Proof.
  intros Hne (l' & o & -> & Hl). exists l', o. split; [done|].
  rewrite lookup_insert_ne; [done | congruence].
Qed.

Lemma is_obj_ref_insert_obj (h : gmap loc cell) l o v :
  is_obj_ref h v → is_obj_ref (<[l := CObj o]> h) v.
Proof.
  intros (l' & o' & -> & Hl). destruct (decide (l = l')) as [->|].
  - exists l', o. by rewrite lookup_insert_eq.
  - exists l', o'. by rewrite lookup_insert_ne.
Qed.

Lemma obj_of_insert_ne (h : gmap loc cell) l c v :
  v ≠ VRef l → obj_of (<[l := c]> h) v = obj_of h v.
Proof.
  intros Hne. destruct v; try done. simpl. apply obj_at_insert_ne. congruence.
Qed.

(** Filtering by a callback that agrees with another on the elements. *)
Lemma filter_ext_elem {A} (f g : A → bool) (xs : list A) :
  (∀ x, x ∈ xs → f x = g x) → filter (λ x, f x) xs = filter (λ x, g x) xs.
Proof.
  induction xs as [|x xs IH]; intros H; [done|].
  rewrite !filter_cons, IH by (intros; apply H; by constructor).
  rewrite (H x) by constructor. done.
Qed.

Lemma filter_field_weaken (h h' : gmap loc cell) (p : value → bool) k (xs : list value) :
  h ⊆ h' → Forall (is_obj_ref h) xs →
  filter (λ v, p (field h' v k)) xs = filter (λ v, p (field h v k)) xs.
Proof.
  intros Hsub Hxs. apply (filter_ext_elem (λ v, p (field h' v k)) (λ v, p (field h v k))).
  intros v Hv. rewrite Forall_forall in Hxs. erewrite field_weaken; eauto.
Qed.

Lemma Forall_filter {A} (P : A → Prop) (f : A → bool) (xs : list A) :
  Forall P xs → Forall P (filter (λ x, f x) xs).
Proof.
  rewrite !Forall_forall. intros H x [_ Hx]%list_elem_of_filter. by apply H.
Qed.

Lemma NoDup_filter_app {A} (f g : A → bool) (xs ys : list A) :
  NoDup (xs ++ ys) → NoDup (filter (λ x, f x) xs ++ filter (λ x, g x) ys).
Proof.
  rewrite !NoDup_app. intros (Hx & Hxy & Hy). split_and!.
  - by apply NoDup_filter.
  - intros x [_ Hx1]%list_elem_of_filter [_ Hx2]%list_elem_of_filter.
    by apply (Hxy x).
  - by apply NoDup_filter.
Qed.

(** [find] returns the first element that satisfies the callback. *)
Lemma find_first {A} (f : A → bool) xs x :
  List.find f xs = Some x →
  ∃ pre post, xs = pre ++ x :: post ∧ f x = true ∧ Forall (λ y, f y = false) pre.
Proof.
  induction xs as [|y xs IH]; simpl; [done|].
  destruct (f y) eqn:Hy.
  - intros [= ->]. by exists [], xs.
  - intros (pre & post & -> & ? & ?)%IH. exists (y :: pre), post. eauto.
Qed.

Lemma find_none_Forall {A} (f : A → bool) xs :
  List.find f xs = None ↔ Forall (λ y, f y = false) xs.
Proof.
  induction xs as [|y xs IH]; simpl; [by split; [constructor|]|].
  destruct (f y) eqn:Hy.
  - split; [done|]. intros [? _]%Forall_cons. congruence.
  - rewrite IH, Forall_cons. tauto.
Qed.

(** ** Well-formedness is kept, and what each body does to the collections *)

Lemma init_wf : store_wf init.
Proof.
  split; try (by eexists); try done; try (by constructor).
Qed.

Lemma list_refs_weaken st h' :
  store_wf st → heap st ⊆ h' → arr_at h' (todoListsData st) = list_refs st.
Proof. intros [[xs Hxs] _ _ _ _ _] Hsub. eauto using arr_at_weaken. Qed.

Lemma item_refs_weaken st h' :
  store_wf st → heap st ⊆ h' → arr_at h' (todoItemsData st) = item_refs st.
Proof. intros [_ [xs Hxs] _ _ _ _] Hsub. eauto using arr_at_weaken. Qed.

Lemma wf_weaken st h' :
  store_wf st → heap st ⊆ h' → store_wf (set_heap h' st).
Proof.
  intros Hwf Hsub.
  assert (Hl := list_refs_weaken st h' Hwf Hsub).
  assert (Hi := item_refs_weaken st h' Hwf Hsub).
  destruct Hwf as [[xs Hxs] [ys Hys] Hne HL HI Hnd].
  split; unfold list_refs, item_refs; simpl; rewrite ?Hl, ?Hi; try done.
  - exists xs. eauto using lookup_weaken.
  - exists ys. eauto using lookup_weaken.
  - eapply Forall_impl; [exact HL|]. eauto using is_obj_ref_weaken.
  - eapply Forall_impl; [exact HI|]. eauto using is_obj_ref_weaken.
Qed.

Lemma getAllLists_effect st :
  store_wf st →
  ∃ a st', getAllLists st = (Resolve (VRef a), st') ∧
    heap st !! a = None ∧
    heap st' = <[a := CArr (list_refs st)]> (heap st) ∧
    todoListsData st' = todoListsData st ∧ todoItemsData st' = todoItemsData st ∧
    nextListId st' = nextListId st ∧ nextItemId st' = nextItemId st ∧
    list_refs st' = list_refs st ∧ item_refs st' = item_refs st ∧
    store_wf st'.
Proof.
  intros Hwf. rewrite getAllLists_eq. cbv zeta.
  set (a := fresh (dom (heap st))).
  assert (Hsub : heap st ⊆ <[a := CArr (list_refs st)]> (heap st)) by apply alloc_subseteq.
  eexists _, _. split; [reflexivity|]. simpl. split_and!; try done.
  - apply fresh_lookup.
  - by apply (list_refs_weaken st).
  - by apply (item_refs_weaken st).
  - by apply wf_weaken.
Qed.

Lemma getItemsByList_effect listId st :
  store_wf st →
  ∃ a st', getItemsByList listId st = (Resolve (VRef a), st') ∧
    heap st !! a = None ∧
    heap st' = <[a := CArr (filter (λ i, strict_eq (field (heap st) i "listId") listId)
                              (item_refs st))]> (heap st) ∧
    todoListsData st' = todoListsData st ∧ todoItemsData st' = todoItemsData st ∧
    nextListId st' = nextListId st ∧ nextItemId st' = nextItemId st ∧
    list_refs st' = list_refs st ∧ item_refs st' = item_refs st ∧
    store_wf st'.
Proof.
  intros Hwf. rewrite getItemsByList_eq. cbv zeta.
  set (a := fresh (dom (heap st))). set (c := CArr _).
  assert (Hsub : heap st ⊆ <[a := c]> (heap st)) by apply alloc_subseteq.
  eexists _, _. split; [reflexivity|]. simpl. split_and!; try done.
  - apply fresh_lookup.
  - by apply (list_refs_weaken st).
  - by apply (item_refs_weaken st).
  - by apply wf_weaken.
Qed.

Lemma deleteList_effect id st :
  store_wf st →
  ∃ a st', deleteList id st = (Resolve (VRef a), st') ∧
    heap st !! a = None ∧ heap st' !! a = Some success ∧
    heap st ⊆ heap st' ∧
    list_refs st' = filter (λ l, strict_neq (field (heap st) l "id") id) (list_refs st) ∧
    item_refs st' = filter (λ i, strict_neq (field (heap st) i "listId") id) (item_refs st) ∧
    nextListId st' = nextListId st ∧ nextItemId st' = nextItemId st ∧
    store_wf st'.
Proof.
  intros Hwf. rewrite deleteList_eq. cbv zeta.
  set (h := heap st). set (a1 := fresh (dom h)).
  set (xs := filter _ (list_refs st)). set (h1 := <[a1 := CArr xs]> h).
  set (a2 := fresh (dom h1)).
  assert (Hsub1 : h ⊆ h1) by apply alloc_subseteq.
  assert (Hys : filter (λ i, strict_neq (field h1 i "listId") id) (arr_at h1 (todoItemsData st))
                = filter (λ i, strict_neq (field h i "listId") id) (item_refs st)).
  { rewrite (item_refs_weaken st h1 Hwf Hsub1).
    apply (filter_field_weaken h h1 (λ x, strict_neq x id)); [done|]. apply Hwf. }
  rewrite Hys. set (ys := filter _ (item_refs st)).
  set (h2 := <[a2 := CArr ys]> h1). set (a3 := fresh (dom h2)).
  set (h3 := <[a3 := success]> h2).
  assert (Hsub2 : h1 ⊆ h2) by apply alloc_subseteq.
  assert (Hsub3 : h2 ⊆ h3) by apply alloc_subseteq.
  assert (Hsub : h ⊆ h3) by (by repeat (etrans; [eassumption|])).
  assert (H1 : h3 !! a1 = Some (CArr xs)).
  { apply (lookup_weaken h1 h3); [apply lookup_insert_eq | by etrans]. }
  assert (H2 : h3 !! a2 = Some (CArr ys)).
  { apply (lookup_weaken h2 h3); [apply lookup_insert_eq | done]. }
  assert (Hl : arr_at h3 a1 = xs) by (unfold arr_at; by rewrite H1).
  assert (Hi : arr_at h3 a2 = ys) by (unfold arr_at; by rewrite H2).
  eexists _, _. split; [reflexivity|]. unfold list_refs, item_refs. simpl.
  rewrite Hl, Hi. split_and!; try done.
  - apply (lookup_weaken_None h h2); [apply fresh_lookup | by etrans; [exact Hsub1|]].
  - apply lookup_insert_eq.
  - destruct Hwf as [_ _ _ HL HI Hnd].
    split; unfold list_refs, item_refs; simpl; rewrite ?Hl, ?Hi; eauto.
    + intros Heq. pose proof (fresh_lookup h1) as Hf. fold a2 in Hf.
      rewrite <- Heq in Hf. unfold h1 in Hf. by rewrite lookup_insert_eq in Hf.
    + apply Forall_filter. eapply Forall_impl; [exact HL|]. eauto using is_obj_ref_weaken.
    + apply Forall_filter. eapply Forall_impl; [exact HI|]. eauto using is_obj_ref_weaken.
    + by apply NoDup_filter_app.
Qed.

Lemma deleteItem_effect id st :
  store_wf st →
  ∃ a st', deleteItem id st = (Resolve (VRef a), st') ∧
    heap st !! a = None ∧ heap st' !! a = Some success ∧
    heap st ⊆ heap st' ∧
    list_refs st' = list_refs st ∧
    item_refs st' = filter (λ i, strict_neq (field (heap st) i "id") id) (item_refs st) ∧
    nextListId st' = nextListId st ∧ nextItemId st' = nextItemId st ∧
    store_wf st'.
Proof.
  intros Hwf. rewrite deleteItem_eq. cbv zeta.
  set (h := heap st). set (a1 := fresh (dom h)).
  set (ys := filter _ (item_refs st)). set (h1 := <[a1 := CArr ys]> h).
  set (a2 := fresh (dom h1)). set (h2 := <[a2 := success]> h1).
  assert (Hsub1 : h ⊆ h1) by apply alloc_subseteq.
  assert (Hsub2 : h1 ⊆ h2) by apply alloc_subseteq.
  assert (Hsub : h ⊆ h2) by (by etrans).
  assert (H1 : h2 !! a1 = Some (CArr ys)).
  { apply (lookup_weaken h1 h2); [apply lookup_insert_eq | done]. }
  assert (Hi : arr_at h2 a1 = ys) by (unfold arr_at; by rewrite H1).
  assert (Hl := list_refs_weaken st h2 Hwf Hsub).
  eexists _, _. split; [reflexivity|]. unfold list_refs, item_refs. simpl.
  rewrite Hi. split_and!; try done.
  - apply (lookup_weaken_None h h1); [apply fresh_lookup | done].
  - apply lookup_insert_eq.
  - destruct Hwf as [[xs Hxs] _ _ HL HI Hnd].
    split; unfold list_refs, item_refs; simpl; rewrite ?Hl, ?Hi; eauto.
    + exists xs. eauto using lookup_weaken.
    + intros Heq. pose proof (fresh_lookup h) as Hf. fold a1 in Hf.
      rewrite <- Heq in Hf. unfold h in Hf. congruence.
    + eapply Forall_impl; [exact HL|]. eauto using is_obj_ref_weaken.
    + apply Forall_filter. eapply Forall_impl; [exact HI|]. eauto using is_obj_ref_weaken.
    + rewrite NoDup_app in Hnd |- *. destruct Hnd as (? & Hd & ?). split_and!; [done| |].
      * intros x Hx [_ Hx']%list_elem_of_filter. by apply (Hd x).
      * by apply NoDup_filter.
Qed.

Lemma createList_effect title now st :
  store_wf st →
  ∃ l st', createList title now st = (Resolve (VRef l), st') ∧
    heap st !! l = None ∧
    heap st' = <[todoListsData st := CArr (list_refs st ++ [VRef l])]>
                 (<[l := CObj (list_literal (nextListId st) title now)]> (heap st)) ∧
    todoListsData st' = todoListsData st ∧ todoItemsData st' = todoItemsData st ∧
    nextListId st' = nextListId st + 1 ∧ nextItemId st' = nextItemId st ∧
    list_refs st' = list_refs st ++ [VRef l] ∧ item_refs st' = item_refs st ∧
    obj_of (heap st') (VRef l) = list_literal (nextListId st) title now ∧
    (∀ v, is_obj_ref (heap st) v → obj_of (heap st') v = obj_of (heap st) v) ∧
    store_wf st'.
Proof.
  intros Hwf. rewrite createList_eq. cbv zeta.
  set (h := heap st). set (l := fresh (dom h)). set (o := list_literal _ _ _).
  set (h1 := <[l := CObj o]> h).
  assert (Hl : h !! l = None) by apply fresh_lookup.
  assert (Hsub : h ⊆ h1) by apply alloc_subseteq.
  rewrite (list_refs_weaken st h1 Hwf Hsub).
  set (a := todoListsData st). set (h2 := <[a := CArr (list_refs st ++ [VRef l])]> h1).
  destruct Hwf as [[xs Hxs] [ys Hys] Hne HL HI Hnd]. fold a h in Hxs, Hne. fold h in Hys, HL, HI.
  assert (Hal : a ≠ l) by (intros ->; congruence).
  assert (Hil : todoItemsData st ≠ l) by (intros Heq; rewrite Heq in Hys; congruence).
  assert (Hobj : ∀ v, is_obj_ref h v → v ≠ VRef l ∧ v ≠ VRef a).
  { intros v (l' & o' & -> & Hl'). split; intros [= ->]; congruence. }
  assert (Hkeep : ∀ v, is_obj_ref h v → obj_of h2 v = obj_of h v).
  { intros v Hv. destruct (Hobj v Hv). unfold h2, h1. by rewrite !obj_of_insert_ne. }
  assert (Hkeep' : ∀ v, is_obj_ref h v → is_obj_ref h2 v).
  { intros v Hv. destruct (Hobj v Hv). unfold h2, h1.
    apply is_obj_ref_insert_ne; [done|]. by apply is_obj_ref_insert_ne. }
  assert (Hnew : h2 !! l = Some (CObj o)).
  { unfold h2, h1. rewrite lookup_insert_ne by done. apply lookup_insert_eq. }
  assert (HLr : arr_at h2 a = list_refs st ++ [VRef l]) by apply arr_at_insert.
  assert (HIr : arr_at h2 (todoItemsData st) = item_refs st).
  { unfold h2, h1. rewrite !arr_at_insert_ne by done. done. }
  eexists _, _. split; [reflexivity|]. simpl.
  fold a h h1 h2. split_and!; try done.
  - unfold obj_at. by rewrite Hnew.
  - split; unfold list_refs, item_refs; simpl; fold a h h1 h2; rewrite ?HLr, ?HIr.
    + eexists. apply lookup_insert_eq.
    + exists ys. unfold h2, h1. by rewrite !lookup_insert_ne.
    + done.
    + apply Forall_app. split.
      * eapply Forall_impl; [exact HL|]. done.
      * repeat constructor. by exists l, o.
    + eapply Forall_impl; [exact HI|]. done.
    + rewrite <- (assoc_L (++)). apply NoDup_app in Hnd as (Hd1 & Hd2 & Hd3).
      rewrite Forall_forall in HL, HI.
      apply NoDup_app. split_and!; [done| |].
      * intros x Hx [Hx'|Hx']%elem_of_app; [|exact (Hd2 x Hx Hx')].
        apply list_elem_of_singleton in Hx' as ->. by destruct (Hobj _ (HL _ Hx)).
      * apply NoDup_app. split_and!; [apply NoDup_singleton| |done].
        intros x ->%list_elem_of_singleton Hx. by destruct (Hobj _ (HI _ Hx)).
Qed.

Lemma createItem_effect listId title priority now st :
  store_wf st →
  ∃ l st', createItem listId title priority now st = (Resolve (VRef l), st') ∧
    heap st !! l = None ∧
    heap st' = <[todoItemsData st := CArr (item_refs st ++ [VRef l])]>
                 (<[l := CObj (item_literal (nextItemId st) listId title priority now)]>
                    (heap st)) ∧
    todoListsData st' = todoListsData st ∧ todoItemsData st' = todoItemsData st ∧
    nextListId st' = nextListId st ∧ nextItemId st' = nextItemId st + 1 ∧
    list_refs st' = list_refs st ∧ item_refs st' = item_refs st ++ [VRef l] ∧
    obj_of (heap st') (VRef l) = item_literal (nextItemId st) listId title priority now ∧
    (∀ v, is_obj_ref (heap st) v → obj_of (heap st') v = obj_of (heap st) v) ∧
    store_wf st'.
Proof.
  intros Hwf. rewrite createItem_eq. cbv zeta.
  set (h := heap st). set (l := fresh (dom h)). set (o := item_literal _ _ _ _ _).
  set (h1 := <[l := CObj o]> h).
  assert (Hl : h !! l = None) by apply fresh_lookup.
  assert (Hsub : h ⊆ h1) by apply alloc_subseteq.
  rewrite (item_refs_weaken st h1 Hwf Hsub).
  set (a := todoItemsData st). set (h2 := <[a := CArr (item_refs st ++ [VRef l])]> h1).
  destruct Hwf as [[xs Hxs] [ys Hys] Hne HL HI Hnd]. fold a h in Hys, Hne. fold h in Hxs, HL, HI.
  assert (Hal : a ≠ l) by (intros ->; congruence).
  assert (Hil : todoListsData st ≠ l) by (intros Heq; rewrite Heq in Hxs; congruence).
  assert (Hobj : ∀ v, is_obj_ref h v → v ≠ VRef l ∧ v ≠ VRef a).
  { intros v (l' & o' & -> & Hl'). split; intros [= ->]; congruence. }
  assert (Hkeep : ∀ v, is_obj_ref h v → obj_of h2 v = obj_of h v).
  { intros v Hv. destruct (Hobj v Hv). unfold h2, h1. by rewrite !obj_of_insert_ne. }
  assert (Hkeep' : ∀ v, is_obj_ref h v → is_obj_ref h2 v).
  { intros v Hv. destruct (Hobj v Hv). unfold h2, h1.
    apply is_obj_ref_insert_ne; [done|]. by apply is_obj_ref_insert_ne. }
  assert (Hnew : h2 !! l = Some (CObj o)).
  { unfold h2, h1. rewrite lookup_insert_ne by done. apply lookup_insert_eq. }
  assert (HIr : arr_at h2 a = item_refs st ++ [VRef l]) by apply arr_at_insert.
  assert (HLr : arr_at h2 (todoListsData st) = list_refs st).
  { unfold h2, h1. rewrite !arr_at_insert_ne by done. done. }
  eexists _, _. split; [reflexivity|]. simpl.
  fold a h h1 h2. split_and!; try done.
  - unfold obj_at. by rewrite Hnew.
  - split; unfold list_refs, item_refs; simpl; fold a h h1 h2; rewrite ?HLr, ?HIr.
    + exists xs. unfold h2, h1. by rewrite !lookup_insert_ne.
    + eexists. apply lookup_insert_eq.
    + done.
    + eapply Forall_impl; [exact HL|]. done.
    + apply Forall_app. split.
      * eapply Forall_impl; [exact HI|]. done.
      * repeat constructor. by exists l, o.
    + rewrite (assoc_L (++)). apply NoDup_app in Hnd as (Hd1 & Hd2 & Hd3).
      rewrite Forall_forall in HL, HI.
      apply NoDup_app. split_and!; [by apply NoDup_app| |apply NoDup_singleton].
      intros x Hx ->%list_elem_of_singleton.
      apply elem_of_app in Hx as [Hx|Hx]; [by destruct (Hobj _ (HL _ Hx))|].
      by destruct (Hobj _ (HI _ Hx)).
Qed.

(** Writing the properties of an object the store already holds. *)
Lemma wf_set_obj st l o o' :
  store_wf st → heap st !! l = Some (CObj o) →
  let st' := set_heap (<[l := CObj o']> (heap st)) st in
  list_refs st' = list_refs st ∧ item_refs st' = item_refs st ∧ store_wf st'.
Proof.
  intros [[xs Hxs] [ys Hys] Hne HL HI Hnd] Hl. cbv zeta.
  assert (Hal : l ≠ todoListsData st) by (intros ->; congruence).
  assert (Hil : l ≠ todoItemsData st) by (intros ->; congruence).
  assert (HLr : list_refs (set_heap (<[l := CObj o']> (heap st)) st) = list_refs st).
  { unfold list_refs. simpl. by rewrite arr_at_insert_ne. }
  assert (HIr : item_refs (set_heap (<[l := CObj o']> (heap st)) st) = item_refs st).
  { unfold item_refs. simpl. by rewrite arr_at_insert_ne. }
  split_and!; [done..|]. split; rewrite ?HLr, ?HIr; simpl; try done.
  - exists xs. by rewrite lookup_insert_ne.
  - exists ys. by rewrite lookup_insert_ne.
  - eapply Forall_impl; [exact HL|]. eauto using is_obj_ref_insert_obj.
  - eapply Forall_impl; [exact HI|]. eauto using is_obj_ref_insert_obj.
Qed.

(** What [find] returns on an array of object references. *)
Lemma find_refs (h : gmap loc cell) (id : value) (xs : list value) :
  Forall (is_obj_ref h) xs →
  let found := default VUndefined (List.find (λ v, strict_eq (field h v "id") id) xs) in
  (found = VUndefined ∧ Forall (λ v, has_id id (obj_of h v) = false) xs) ∨
  (∃ l o pre post, found = VRef l ∧ h !! l = Some (CObj o) ∧
     xs = pre ++ VRef l :: post ∧ has_id id o = true ∧
     Forall (λ v, has_id id (obj_of h v) = false) pre).
Proof.
  intros Hxs. cbv zeta. destruct (List.find _ xs) as [v|] eqn:Hfind; simpl.
  - right. apply find_first in Hfind as (pre & post & -> & Hv & Hpre).
    apply Forall_app in Hxs as [_ [(l & o & -> & Hl) _]%Forall_cons].
    exists l, o, pre, post. split_and!; try done.
    unfold field in Hv. simpl in Hv. unfold obj_at in Hv. by rewrite Hl in Hv.
  - left. split; [done|]. by apply find_none_Forall in Hfind.
Qed.

Lemma find_list_spec id st :
  store_wf st →
  (find_list id st = VUndefined ∧
   Forall (λ o, has_id id o = false) (lists st)) ∨
  (∃ l o pre post, find_list id st = VRef l ∧ heap st !! l = Some (CObj o) ∧
     list_refs st = pre ++ VRef l :: post ∧ has_id id o = true ∧
     Forall (λ v, has_id id (obj_of (heap st) v) = false) pre).
Proof.
  intros Hwf. destruct (find_refs (heap st) id (list_refs st)) as [[? ?]|?];
    [apply Hwf| |by right].
  left. split; [done|]. unfold lists. by apply Forall_fmap.
Qed.

Lemma find_item_spec id st :
  store_wf st →
  (find_item id st = VUndefined ∧
   Forall (λ o, has_id id o = false) (items st)) ∨
  (∃ l o pre post, find_item id st = VRef l ∧ heap st !! l = Some (CObj o) ∧
     item_refs st = pre ++ VRef l :: post ∧ has_id id o = true ∧
     Forall (λ v, has_id id (obj_of (heap st) v) = false) pre).
Proof.
  intros Hwf. destruct (find_refs (heap st) id (item_refs st)) as [[? ?]|?];
    [apply Hwf| |by right].
  left. split; [done|]. unfold items. by apply Forall_fmap.
Qed.

Lemma updateList_effect id title st :
  store_wf st →
  (Forall (λ o, has_id id o = false) (lists st) ∧
   updateList id title st = (Reject (Error "List not found"), st)) ∨
  (∃ l o pre post, heap st !! l = Some (CObj o) ∧
     list_refs st = pre ++ VRef l :: post ∧ has_id id o = true ∧
     Forall (λ v, has_id id (obj_of (heap st) v) = false) pre ∧
     updateList id title st =
       (Resolve (VRef l), set_heap (<[l := CObj (<["title" := title]> o)]> (heap st)) st)).
Proof.
  intros Hwf. rewrite updateList_eq. cbv zeta.
  destruct (find_list_spec id st Hwf) as [[-> ?]|(l & o & pre & post & -> & Hl & ? & ? & ?)].
  - by left.
  - right. exists l, o, pre, post. split_and!; try done.
    simpl. unfold obj_at. by rewrite Hl.
Qed.

Lemma updateItem_effect id updates st :
  store_wf st →
  (Forall (λ o, has_id id o = false) (items st) ∧
   updateItem id updates st = (Reject (Error "Item not found"), st)) ∨
  (∃ l o pre post, heap st !! l = Some (CObj o) ∧
     item_refs st = pre ++ VRef l :: post ∧ has_id id o = true ∧
     Forall (λ v, has_id id (obj_of (heap st) v) = false) pre ∧
     updateItem id updates st =
       (Resolve (VRef l),
        set_heap (<[l := CObj (own_writes updates ∪ o)]> (heap st)) st)).
Proof.
  intros Hwf. rewrite updateItem_eq. cbv zeta.
  destruct (find_item_spec id st Hwf) as [[-> ?]|(l & o & pre & post & -> & Hl & ? & ? & ?)].
  - by left.
  - right. exists l, o, pre, post. split_and!; try done.
    simpl. unfold obj_at. by rewrite Hl.
Qed.

Lemma toggleItem_effect id st :
  store_wf st →
  (Forall (λ o, has_id id o = false) (items st) ∧
   toggleItem id st = (Reject (Error "Item not found"), st)) ∨
  (∃ l o pre post, heap st !! l = Some (CObj o) ∧
     item_refs st = pre ++ VRef l :: post ∧ has_id id o = true ∧
     Forall (λ v, has_id id (obj_of (heap st) v) = false) pre ∧
     toggleItem id st =
       (Resolve (VRef l),
        set_heap (<[l := CObj (<["completed" := js_not (prop o "completed")]> o)]> (heap st)) st)).
Proof.
  intros Hwf. rewrite toggleItem_eq. cbv zeta.
  destruct (find_item_spec id st Hwf) as [[-> ?]|(l & o & pre & post & -> & Hl & ? & ? & ?)].
  - by left.
  - right. exists l, o, pre, post. split_and!; try done.
    simpl. unfold field, obj_of, obj_at. by rewrite Hl.
Qed.

Lemma call_wf o st : store_wf st → store_wf (snd (call o st)).
Proof.
  intros Hwf. destruct o; unfold call.
  - destruct (getAllLists_effect st Hwf) as (a & st' & -> & H). apply H.
  - destruct (createList_effect title now st Hwf) as (a & st' & -> & H). apply H.
  - destruct (updateList_effect id title st Hwf)
      as [[_ ->]|(l & o & pre & post & Hl & _ & _ & _ & ->)]; [done|].
    by eapply wf_set_obj.
  - destruct (deleteList_effect id st Hwf) as (a & st' & -> & H). apply H.
  - destruct (getItemsByList_effect listId st Hwf) as (a & st' & -> & H). apply H.
  - destruct (createItem_effect listId title priority now st Hwf) as (a & st' & -> & H).
    apply H.
  - destruct (updateItem_effect id updates st Hwf)
      as [[_ ->]|(l & o & pre & post & Hl & _ & _ & _ & ->)]; [done|].
    by eapply wf_set_obj.
  - destruct (deleteItem_effect id st Hwf) as (a & st' & -> & H). apply H.
  - destruct (toggleItem_effect id st Hwf)
      as [[_ ->]|(l & o & pre & post & Hl & _ & _ & _ & ->)]; [done|].
    by eapply wf_set_obj.
Qed.

Lemma run_wf ops st : store_wf st → store_wf (run ops st).
Proof.
  revert st. induction ops as [|o ops IH]; intros st Hwf; simpl; [done|].
  by apply IH, call_wf.
Qed.

(** ** The bodies on the objects of the collections *)

Lemma fmap_obj_of_weaken (h h' : gmap loc cell) (xs : list value) :
  h ⊆ h' → Forall (is_obj_ref h) xs → obj_of h' <$> xs = obj_of h <$> xs.
Proof.
  intros Hsub Hxs. apply list_fmap_ext. intros i v Hv.
  apply obj_of_weaken; [done|]. rewrite Forall_forall in Hxs.
  apply Hxs. by eapply list_elem_of_lookup_2.
Qed.

Lemma fmap_obj_of_insert (h : gmap loc cell) l c (xs : list value) :
  VRef l ∉ xs → obj_of (<[l := c]> h) <$> xs = obj_of h <$> xs.
Proof.
  intros Hl. apply list_fmap_ext. intros i v Hv.
  apply obj_of_insert_ne. intros ->. apply Hl. by eapply list_elem_of_lookup_2.
Qed.

Lemma fmap_filter {A B} (g : A → B) (p : B → bool) (xs : list A) :
  g <$> filter (λ x, p (g x)) xs = filter (λ y, p y) (g <$> xs).
Proof.
  induction xs as [|x xs IH]; [done|]. rewrite fmap_cons, !filter_cons.
  destruct (decide (p (g x))); rewrite ?fmap_cons; by f_equal.
Qed.

Lemma update_first_none p f xs :
  Forall (λ o, p o = false) xs → update_first p f xs = xs.
Proof.
  induction 1 as [|x xs Hx _ IH]; simpl; [done|]. by rewrite Hx, IH.
Qed.

Lemma update_first_app p f pre x post :
  Forall (λ o, p o = false) pre → p x = true →
  update_first p f (pre ++ x :: post) = pre ++ f x :: post.
Proof.
  intros Hpre Hx. induction Hpre as [|y pre Hy _ IH]; simpl.
  - by rewrite Hx.
  - by rewrite Hy, IH.
Qed.

Lemma fmap_obj_of_keep (h h' : gmap loc cell) (xs : list value) :
  (∀ v, is_obj_ref h v → obj_of h' v = obj_of h v) →
  Forall (is_obj_ref h) xs → obj_of h' <$> xs = obj_of h <$> xs.
Proof.
  intros Hkeep Hxs. apply list_fmap_ext. intros i v Hv.
  apply Hkeep. rewrite Forall_forall in Hxs. apply Hxs. by eapply list_elem_of_lookup_2.
Qed.

(** A body that only allocates leaves the objects of both collections as
    they were. *)
Lemma observe_weaken st st' :
  store_wf st → heap st ⊆ heap st' →
  list_refs st' = list_refs st → item_refs st' = item_refs st →
  lists st' = lists st ∧ items st' = items st.
Proof.
  intros Hwf Hsub HL HI. unfold lists, items. rewrite HL, HI.
  split; apply fmap_obj_of_weaken; (done || apply Hwf).
Qed.

Lemma observe_set_list_obj st l o pre post (f : gmap string value → gmap string value) p :
  store_wf st → heap st !! l = Some (CObj o) →
  list_refs st = pre ++ VRef l :: post →
  p o = true → Forall (λ v, p (obj_of (heap st) v) = false) pre →
  let st' := set_heap (<[l := CObj (f o)]> (heap st)) st in
  lists st' = update_first p f (lists st) ∧ items st' = items st.
Proof.
  intros Hwf Hl Hrefs Hp Hpre. cbv zeta.
  destruct (wf_set_obj st l o (f o) Hwf Hl) as (HL & HI & _).
  unfold lists, items. rewrite HL, HI. simpl.
  pose proof (wf_nodup st Hwf) as Hnd. rewrite Hrefs in Hnd |- *.
  rewrite <- (assoc_L (++)) in Hnd. apply NoDup_app in Hnd as (_ & Hd1 & Hd2).
  rewrite <- app_comm_cons in Hd2. apply NoDup_cons in Hd2 as [Hd2 _].
  rewrite not_elem_of_app in Hd2. destruct Hd2 as [Hpost Hitems].
  assert (Hpre' : VRef l ∉ pre).
  { intros Hin. apply (Hd1 _ Hin). rewrite <- app_comm_cons. constructor. }
  rewrite !fmap_app, !fmap_cons, !fmap_obj_of_insert by done. split; [|done].
  simpl. rewrite obj_at_insert. unfold obj_at. rewrite Hl.
  symmetry. apply update_first_app; [|done]. by apply Forall_fmap.
Qed.

Lemma observe_set_item_obj st l o pre post (f : gmap string value → gmap string value) p :
  store_wf st → heap st !! l = Some (CObj o) →
  item_refs st = pre ++ VRef l :: post →
  p o = true → Forall (λ v, p (obj_of (heap st) v) = false) pre →
  let st' := set_heap (<[l := CObj (f o)]> (heap st)) st in
  lists st' = lists st ∧ items st' = update_first p f (items st).
Proof.
  intros Hwf Hl Hrefs Hp Hpre. cbv zeta.
  destruct (wf_set_obj st l o (f o) Hwf Hl) as (HL & HI & _).
  unfold lists, items. rewrite HL, HI. simpl.
  pose proof (wf_nodup st Hwf) as Hnd. rewrite Hrefs in Hnd |- *.
  apply NoDup_app in Hnd as (_ & Hd1 & Hd2).
  apply NoDup_app in Hd2 as (_ & Hd2 & Hd3). apply NoDup_cons in Hd3 as [Hpost _].
  assert (Hpre' : VRef l ∉ pre).
  { intros Hin. apply (Hd2 _ Hin). constructor. }
  assert (Hlists : VRef l ∉ list_refs st).
  { intros Hin. apply (Hd1 _ Hin). apply elem_of_app. right. constructor. }
  rewrite !fmap_app, !fmap_cons, !fmap_obj_of_insert by done. split; [done|].
  simpl. rewrite obj_at_insert. unfold obj_at. rewrite Hl.
  symmetry. apply update_first_app; [|done]. by apply Forall_fmap.
Qed.

(** Every body acts on the objects of the collections as [step] says. *)
Lemma call_observe o st :
  store_wf st → observe (snd (call o st)) = step o (observe st).
Proof.
  intros Hwf. unfold observe.
  destruct o; unfold call, step; cbn [s_lists s_items s_nextListId s_nextItemId].
  - destruct (getAllLists_effect st Hwf)
      as (a & st' & -> & H); cbn [snd];
      destruct H as (Ha & Hh & _ & _ & -> & -> & HL & HI & _).
    destruct (observe_weaken st st') as [-> ->]; try done.
    rewrite Hh. by apply insert_subseteq.
  - destruct (createList_effect title now st Hwf)
      as (l & st' & -> & H); cbn [snd];
      destruct H as (_ & _ & _ & _ & -> & -> & HL & HI & Hnew & Hkeep & _).
    unfold lists, items. rewrite HL, HI, fmap_app. simpl in *.
    rewrite Hnew, !(fmap_obj_of_keep (heap st) (heap st')) by (done || apply Hwf). done.
  - destruct (updateList_effect id title st Hwf)
      as [[Hno ->]|(l & o & pre & post & Hl & Hrefs & Hp & Hpre & ->)]; simpl.
    + by rewrite update_first_none.
    + by destruct (observe_set_list_obj st l o pre post (insert "title" title) (has_id id))
        as [-> ->].
  - destruct (deleteList_effect id st Hwf)
      as (a & st' & -> & H); cbn [snd];
      destruct H as (_ & _ & Hsub & HL & HI & -> & -> & _).
    unfold lists, items. rewrite HL, HI.
    rewrite !(fmap_obj_of_weaken (heap st) (heap st'))
      by (done || apply Forall_filter, Hwf).
    f_equal.
    + apply (fmap_filter (obj_of (heap st)) (λ o, negb (has_id id o))).
    + apply (fmap_filter (obj_of (heap st)) (λ o, negb (in_list id o))).
  - destruct (getItemsByList_effect listId st Hwf)
      as (a & st' & -> & H); cbn [snd];
      destruct H as (Ha & Hh & _ & _ & -> & -> & HL & HI & _).
    destruct (observe_weaken st st') as [-> ->]; try done.
    rewrite Hh. by apply insert_subseteq.
  - destruct (createItem_effect listId title priority now st Hwf)
      as (l & st' & -> & H); cbn [snd];
      destruct H as (_ & _ & _ & _ & -> & -> & HL & HI & Hnew & Hkeep & _).
    unfold lists, items. rewrite HL, HI, fmap_app. simpl in *.
    rewrite Hnew, !(fmap_obj_of_keep (heap st) (heap st')) by (done || apply Hwf). done.
  - destruct (updateItem_effect id updates st Hwf)
      as [[Hno ->]|(l & o & pre & post & Hl & Hrefs & Hp & Hpre & ->)]; simpl.
    + by rewrite update_first_none.
    + by destruct (observe_set_item_obj st l o pre post (union (own_writes updates))
                     (has_id id))
        as [-> ->].
  - destruct (deleteItem_effect id st Hwf)
      as (a & st' & -> & H); cbn [snd];
      destruct H as (_ & _ & Hsub & HL & HI & -> & -> & _).
    unfold lists, items. rewrite HL, HI.
    rewrite !(fmap_obj_of_weaken (heap st) (heap st'))
      by (done || apply Forall_filter, Hwf || apply Hwf).
    f_equal. apply (fmap_filter (obj_of (heap st)) (λ o, negb (has_id id o))).
  - destruct (toggleItem_effect id st Hwf)
      as [[Hno ->]|(l & o & pre & post & Hl & Hrefs & Hp & Hpre & ->)]; simpl.
    + by rewrite update_first_none.
    + by destruct (observe_set_item_obj st l o pre post
                     (λ o, <["completed" := js_not (prop o "completed")]> o) (has_id id))
        as [-> ->].
Qed.

Lemma run_observe ops st :
  store_wf st → observe (run ops st) = foldl (λ s o, step o s) (observe st) ops.
Proof.
  revert st. induction ops as [|o ops IH]; intros st Hwf; simpl; [done|].
  rewrite IH by by apply call_wf. by rewrite call_observe.
Qed.

(** ** Ids of the objects in the collections *)

Lemma ids_update_first p f xs :
  (∀ o, prop (f o) "id" = prop o "id") → ids (update_first p f xs) = ids xs.
Proof.
  intros Hf. unfold ids. induction xs as [|x xs IH]; [done|]. cbn [update_first].
  destruct (p x); rewrite !fmap_cons; [by rewrite Hf | by rewrite IH].
Qed.

Lemma ids_below_update_first n p f xs :
  (∀ o, prop (f o) "id" = prop o "id") →
  ids_below n xs → ids_below n (update_first p f xs).
Proof.
  intros Hf. unfold ids_below. induction 1 as [|x xs Hx Hxs IH]; simpl; [constructor|].
  destruct (p x); constructor; try done. by rewrite Hf.
Qed.

Lemma ids_below_mono n m xs : n ≤ m → ids_below n xs → ids_below m xs.
Proof.
  intros Hnm Hb. eapply Forall_impl; [exact Hb|].
  intros o (k & ? & ?). exists k. split; [done|lia].
Qed.

Lemma NoDup_ids_filter (p : gmap string value → bool) xs :
  NoDup (ids xs) → NoDup (ids (filter (λ o, p o) xs)).
Proof.
  intros Hnd. eapply sublist_NoDup; [exact Hnd|]. apply fmap_sublist, sublist_filter.
Qed.

Lemma NoDup_ids_snoc n xs o :
  ids_below n xs → prop o "id" = VNum n → NoDup (ids xs) → NoDup (ids (xs ++ [o])).
Proof.
  intros Hb Ho Hnd. unfold ids. rewrite fmap_app. apply NoDup_app. split_and!; [done| |].
  - intros v Hv ->%list_elem_of_singleton. rewrite Ho in Hv.
    apply list_elem_of_fmap in Hv as (o' & Hid & Ho').
    unfold ids_below in Hb. rewrite Forall_forall in Hb.
    destruct (Hb o' Ho') as (k & Hk & ?). rewrite Hk in Hid. simplify_eq. lia.
  - apply NoDup_singleton.
Qed.

Lemma prop_insert_ne (o : gmap string value) k k' v :
  k ≠ k' → prop (<[k := v]> o) k' = prop o k'.
Proof. intros. unfold prop. by rewrite lookup_insert_ne. Qed.

Lemma prop_insert (o : gmap string value) k v : prop (<[k := v]> o) k = v.
Proof. unfold prop. by rewrite lookup_insert_eq. Qed.

Lemma own_writes_lookup (updates : gmap string value) k :
  k ≠ "__proto__" → own_writes updates !! k = updates !! k.
Proof. intros. unfold own_writes. by rewrite lookup_delete_ne. Qed.

Lemma prop_union_None (updates o : gmap string value) k :
  k ≠ "__proto__" → updates !! k = None → prop (own_writes updates ∪ o) k = prop o k.
Proof.
  intros Hne Hk. unfold prop. rewrite lookup_union_r; [done|].
  by rewrite own_writes_lookup.
Qed.

Lemma prop_union_Some (updates o : gmap string value) k v :
  k ≠ "__proto__" → updates !! k = Some v → prop (own_writes updates ∪ o) k = v.
Proof.
  intros Hne Hk. unfold prop. erewrite lookup_union_Some_l; [done|].
  by rewrite own_writes_lookup.
Qed.

Lemma list_literal_id n title now : prop (list_literal n title now) "id" = VNum n.
Proof. apply prop_insert. Qed.

Lemma item_literal_id n listId title priority now :
  prop (item_literal n listId title priority now) "id" = VNum n.
Proof. apply prop_insert. Qed.

(** The Lists keep distinct numbers below [nextListId], whatever is called. *)
Lemma step_list_ids_ok o s : list_ids_ok s → list_ids_ok (step o s).
Proof.
  intros [Hb Hnd]. destruct o; simpl; try done; split; simpl.
  - apply Forall_app. split; [by apply (ids_below_mono (s_nextListId s)); [lia|]|].
    repeat constructor. exists (s_nextListId s). rewrite list_literal_id. split; [done|lia].
  - eapply NoDup_ids_snoc; [done|apply list_literal_id|done].
  - apply ids_below_update_first; [|done]. intros. by apply prop_insert_ne.
  - rewrite ids_update_first; [done|]. intros. by apply prop_insert_ne.
  - by apply Forall_filter with (f := λ o, negb (has_id id o)).
  - by apply NoDup_ids_filter with (p := λ o, negb (has_id id o)).
Qed.

(** The Items keep distinct numbers below [nextItemId], as long as no call
    writes an [id]. *)
Lemma step_item_ids_ok o s : keeps_ids o = true → item_ids_ok s → item_ids_ok (step o s).
Proof.
  intros Hk [Hb Hnd]. destruct o; simpl; try done; split; simpl.
  - by apply Forall_filter with (f := λ o, negb (in_list id o)).
  - by apply NoDup_ids_filter with (p := λ o, negb (in_list id o)).
  - apply Forall_app. split; [by apply (ids_below_mono (s_nextItemId s)); [lia|]|].
    repeat constructor. exists (s_nextItemId s). rewrite item_literal_id. split; [done|lia].
  - eapply NoDup_ids_snoc; [done|apply item_literal_id|done].
  - apply ids_below_update_first; [|done]. intros. apply prop_union_None; [done|].
    simpl in Hk. by apply bool_decide_eq_true in Hk.
  - rewrite ids_update_first; [done|]. intros. apply prop_union_None; [done|].
    simpl in Hk. by apply bool_decide_eq_true in Hk.
  - by apply Forall_filter with (f := λ o, negb (has_id id o)).
  - by apply NoDup_ids_filter with (p := λ o, negb (has_id id o)).
  - apply ids_below_update_first; [|done]. intros. by apply prop_insert_ne.
  - rewrite ids_update_first; [done|]. intros. by apply prop_insert_ne.
Qed.

Lemma run_list_ids_ok ops : list_ids_ok (observe (run ops init)).
Proof.
  rewrite run_observe by apply init_wf.
  assert (H0 : list_ids_ok (observe init)) by (split; constructor).
  revert H0. generalize (observe init). induction ops as [|o ops IH]; intros s Hs; [done|].
  simpl. by apply IH, step_list_ids_ok.
Qed.

Lemma run_item_ids_ok ops :
  forallb keeps_ids ops = true → item_ids_ok (observe (run ops init)).
Proof.
  rewrite run_observe by apply init_wf.
  assert (H0 : item_ids_ok (observe init)) by (split; constructor).
  revert H0. generalize (observe init). induction ops as [|o ops IH]; intros s Hs Hk; [done|].
  simpl in *. apply andb_true_iff in Hk as [Ho Hk]. by apply IH; [apply step_item_ids_ok|].
Qed.

(** ** Ids handed out *)

Lemma returned_id_createList title now st :
  store_wf st → returned_id (CreateList title now) st = VNum (nextListId st).
Proof.
  intros Hwf. unfold returned_id, call.
  destruct (createList_effect title now st Hwf)
    as (l & st' & -> & _ & _ & _ & _ & _ & _ & _ & _ & Hnew & _).
  unfold field. rewrite Hnew. apply list_literal_id.
Qed.

Lemma returned_id_createItem listId title priority now st :
  store_wf st →
  returned_id (CreateItem listId title priority now) st = VNum (nextItemId st).
Proof.
  intros Hwf. unfold returned_id, call.
  destruct (createItem_effect listId title priority now st Hwf)
    as (l & st' & -> & _ & _ & _ & _ & _ & _ & _ & _ & Hnew & _).
  unfold field. rewrite Hnew. apply item_literal_id.
Qed.

Lemma call_counters o st :
  store_wf st →
  nextListId (snd (call o st)) =
    match o with CreateList _ _ => nextListId st + 1 | _ => nextListId st end ∧
  nextItemId (snd (call o st)) =
    match o with CreateItem _ _ _ _ => nextItemId st + 1 | _ => nextItemId st end.
Proof.
  intros Hwf. pose proof (call_observe o st Hwf) as H. unfold observe in H.
  destruct o; simpl in H; by simplify_eq.
Qed.

Lemma run_counters_mono ops st :
  store_wf st →
  nextListId st ≤ nextListId (run ops st) ∧ nextItemId st ≤ nextItemId (run ops st).
Proof.
  revert st. induction ops as [|o ops IH]; intros st Hwf; simpl; [lia|].
  destruct (IH _ (call_wf o st Hwf)) as [H1 H2].
  destruct (call_counters o st Hwf) as [H3 H4]. destruct o; lia.
Qed.

Lemma list_ids_issued_range ops st :
  store_wf st →
  Forall (λ v, ∃ n, v = VNum n ∧ nextListId st ≤ n < nextListId (run ops st))
         (list_ids_issued ops st) ∧
  NoDup (list_ids_issued ops st).
Proof.
  revert st. induction ops as [|o ops IH]; intros st Hwf; simpl; [by split; constructor|].
  destruct (IH _ (call_wf o st Hwf)) as [Hr Hnd].
  destruct (call_counters o st Hwf) as [Hc _].
  destruct (run_counters_mono ops _ (call_wf o st Hwf)) as [Hm _].
  assert (Hr' : Forall (λ v, ∃ n, v = VNum n ∧
                 nextListId st ≤ n < nextListId (run ops (snd (call o st))))
                (list_ids_issued ops (snd (call o st)))).
  { eapply Forall_impl; [exact Hr|]. intros v (n & -> & ?). exists n. split; [done|].
    destruct o; lia. }
  destruct o; cbn [app]; try done.
  rewrite returned_id_createList by done. split.
  - constructor; [|done]. eexists. split; [done|]. lia.
  - constructor; [|done]. intros Hin. rewrite Forall_forall in Hr.
    destruct (Hr _ Hin) as (n & [= <-] & ?). lia.
Qed.

Lemma item_ids_issued_range ops st :
  store_wf st →
  Forall (λ v, ∃ n, v = VNum n ∧ nextItemId st ≤ n < nextItemId (run ops st))
         (item_ids_issued ops st) ∧
  NoDup (item_ids_issued ops st).
Proof.
  revert st. induction ops as [|o ops IH]; intros st Hwf; simpl; [by split; constructor|].
  destruct (IH _ (call_wf o st Hwf)) as [Hr Hnd].
  destruct (call_counters o st Hwf) as [_ Hc].
  destruct (run_counters_mono ops _ (call_wf o st Hwf)) as [_ Hm].
  assert (Hr' : Forall (λ v, ∃ n, v = VNum n ∧
                 nextItemId st ≤ n < nextItemId (run ops (snd (call o st))))
                (item_ids_issued ops (snd (call o st)))).
  { eapply Forall_impl; [exact Hr|]. intros v (n & -> & ?). exists n. split; [done|].
    destruct o; lia. }
  destruct o; cbn [app]; try done.
  rewrite returned_id_createItem by done. split.
  - constructor; [|done]. eexists. split; [done|]. lia.
  - constructor; [|done]. intros Hin. rewrite Forall_forall in Hr.
    destruct (Hr _ Hin) as (n & [= <-] & ?). lia.
Qed.

(** ** Creation order *)

Lemma StronglySorted_sublist {A} (R : relation A) (l1 l2 : list A) :
  l1 `sublist_of` l2 → StronglySorted R l2 → StronglySorted R l1.
Proof.
  induction 1 as [|x l1 l2 Hsub IH|x l1 l2 Hsub IH]; intros Hs; [done| |].
  - apply StronglySorted_cons in Hs as [Hx Hs]. apply StronglySorted_cons.
    split; [|by apply IH]. rewrite Forall_forall in Hx |- *.
    intros y Hy. apply Hx. by eapply elem_of_sublist.
  - apply StronglySorted_cons in Hs as [_ Hs]. by apply IH.
Qed.

Lemma step_creation_order o s :
  list_ids_ok s → in_creation_order (s_lists s) → in_creation_order (s_lists (step o s)).
Proof.
  intros [Hb _] Hs. unfold in_creation_order in *. destruct o; simpl; try done.
  - unfold ids. rewrite fmap_app. apply StronglySorted_app. split_and!; [|done|].
    + intros x1 x2 Hx1 ->%list_elem_of_singleton. rewrite list_literal_id.
      apply list_elem_of_fmap in Hx1 as (o & -> & Ho).
      unfold ids_below in Hb. rewrite Forall_forall in Hb.
      destruct (Hb o Ho) as (k & -> & Hk). done.
    + repeat constructor.
  - rewrite ids_update_first; [done|]. intros. by apply prop_insert_ne.
  - eapply StronglySorted_sublist; [|exact Hs]. apply fmap_sublist, sublist_filter.
Qed.

(** The Lists of [todoListsData] are in the order of their creation. *)
Lemma run_creation_order ops : in_creation_order (lists (run ops init)).
Proof.
  change (in_creation_order (s_lists (observe (run ops init)))).
  rewrite run_observe by apply init_wf.
  assert (H0 : list_ids_ok (observe init)) by (split; constructor).
  assert (H1 : in_creation_order (s_lists (observe init))) by constructor.
  revert H0 H1. generalize (observe init).
  induction ops as [|o ops IH]; intros s Hs Ho; [done|].
  simpl. apply IH; [by apply step_list_ids_ok | by apply step_creation_order].
Qed.

(** * The properties of the specification *)

(** ** Cascade on delete *)

Lemma filter_none {A} (f : A → bool) (xs : list A) :
  Forall (λ x, f x = false) xs → filter (λ x, f x) xs = [].
Proof.
  induction 1 as [|x xs Hx _ IH]; [done|].
  rewrite filter_cons, IH. destruct (decide (f x)) as [Hfx|]; [|done].
  rewrite Hx in Hfx. done.
Qed.

Lemma filter_negb_Forall {A} (f : A → bool) (xs : list A) :
  Forall (λ x, f x = false) (filter (λ x, negb (f x)) xs).
Proof.
  apply Forall_forall. intros x [Hx _]%list_elem_of_filter.
  by destruct (f x).
Qed.

Lemma strict_eq_eq a b : strict_eq a b = true → a = b.
Proof.
  destruct a, b; simpl; try done; intros ?%bool_decide_eq_true; congruence.
Qed.

Lemma strict_eq_num n : strict_eq (VNum n) (VNum n) = true.
Proof. simpl. by apply bool_decide_eq_true. Qed.

Lemma strict_eq_num_neq a n : strict_eq a (VNum n) = false → a ≠ VNum n.
Proof.
  intros H ->. simpl in H. by rewrite bool_decide_eq_false in H.
Qed.

(** C1. Once [deleteList] has run on the id of a List of the store, that
    List is gone, [getItemsByList] on that id resolves with an empty array,
    and no Item of the item collection has that [listId]: the cascade is
    part of the body of [deleteList] itself. *)
Theorem cascade_delete (ops : list op) (L : value) :
  let st := run ops init in
  L ∈ list_refs st →
  let id := field (heap st) L "id" in
  let st1 := snd (deleteList id st) in
  (L ∉ list_refs st1) ∧
  (∃ a, fst (getItemsByList id st1) = Resolve (VRef a) ∧
        arr_at (heap (snd (getItemsByList id st1))) a = []) ∧
  Forall (λ item, in_list id item = false ∧ prop item "listId" ≠ id) (items st1).
Proof.
  intros st HL id st1.
  assert (Hwf : store_wf st) by apply run_wf, init_wf.
  assert (Hwf1 : store_wf st1) by apply (call_wf (DeleteList id)), Hwf.
  assert (Hid : ∃ n, id = VNum n).
  { destruct (run_list_ids_ok ops) as [Hb _]. fold st in Hb.
    unfold ids_below in Hb. rewrite Forall_forall in Hb.
    destruct (Hb (obj_of (heap st) L)) as (n & Hn & _); [|by exists n].
    simpl. unfold lists. apply list_elem_of_fmap. eauto. }
  assert (Hitems : Forall (λ item, in_list id item = false) (items st1)).
  { pose proof (call_observe (DeleteList id) st Hwf) as Hobs.
    apply (f_equal s_items) in Hobs. unfold observe, step in Hobs.
    cbn [s_items call] in Hobs. fold st1 in Hobs. rewrite Hobs.
    apply filter_negb_Forall. }
  split_and!.
  - destruct (deleteList_effect id st Hwf) as (a & st' & E & _ & _ & _ & HLr & _).
    unfold st1. rewrite E. cbn [snd]. rewrite HLr.
    intros [Hne _]%list_elem_of_filter. fold id in Hne. destruct Hid as [n Hn].
    unfold strict_neq in Hne. by rewrite Hn, strict_eq_num in Hne.
  - destruct (getItemsByList_effect id st1 Hwf1) as (a & st2 & -> & _ & Hh & _).
    exists a. split; [done|]. simpl. rewrite Hh, arr_at_insert.
    apply (filter_none (λ i, strict_eq (field (heap st1) i "listId") id)).
    unfold items in Hitems. by apply Forall_fmap in Hitems.
  - eapply Forall_impl; [exact Hitems|]. intros o Ho. split; [done|].
    destruct Hid as [n ->]. by apply strict_eq_num_neq.
Qed.

Lemma cascade_delete_witness :
  let st := run groceries init in
  let L := VRef 3%positive in
  L ∈ list_refs st ∧
  let id := field (heap st) L "id" in
  let st1 := snd (deleteList id st) in
  (L ∉ list_refs st1) ∧
  (∃ a, fst (getItemsByList id st1) = Resolve (VRef a) ∧
        arr_at (heap (snd (getItemsByList id st1))) a = []) ∧
  Forall (λ item, in_list id item = false ∧ prop item "listId" ≠ id) (items st1).
Proof.
  assert (H : VRef 3%positive ∈ list_refs (run groceries init))
    by (vm_compute; constructor).
  split; [exact H|]. exact (cascade_delete groceries (VRef 3%positive) H).
Defined.

(** ** Unique ids *)

(** C3. Over every run of creates and deletes (and of any other call that
    does not itself write an [id]), no two Lists of the store share an id
    and no two Items share an id; the ids handed out by [createList] are
    pairwise distinct, and so are those handed out by [createItem]; the
    two counters are independent: neither create moves the other's
    counter. *)
Theorem ids_unique (ops : list op) :
  forallb keeps_ids ops = true →
  let st := run ops init in
  NoDup (ids (lists st)) ∧ NoDup (ids (items st)) ∧
  NoDup (list_ids_issued ops init) ∧ NoDup (item_ids_issued ops init) ∧
  (∀ title now s, nextItemId (snd (createList title now s)) = nextItemId s) ∧
  (∀ listId title priority now s,
     nextListId (snd (createItem listId title priority now s)) = nextListId s).
Proof.
  intros Hk st. split_and!.
  - apply (run_list_ids_ok ops).
  - by apply (run_item_ids_ok ops).
  - apply list_ids_issued_range, init_wf.
  - apply item_ids_issued_range, init_wf.
  - done.
  - done.
Qed.

Lemma ids_unique_witness :
  forallb keeps_ids scenario = true ∧
  NoDup (ids (lists (run scenario init))) ∧ NoDup (ids (items (run scenario init))) ∧
  NoDup (list_ids_issued scenario init) ∧ NoDup (item_ids_issued scenario init) ∧
  (∀ title now s, nextItemId (snd (createList title now s)) = nextItemId s) ∧
  (∀ listId title priority now s,
     nextListId (snd (createItem listId title priority now s)) = nextListId s).
Proof.
  split; [reflexivity|]. apply (ids_unique scenario). reflexivity.
Defined.

Example scenario_ids :
  list_ids_issued scenario init = [VNum 1; VNum 2] ∧
  item_ids_issued scenario init = [VNum 1; VNum 2; VNum 3] ∧
  ids (lists (run scenario init)) = [VNum 2] ∧
  ids (items (run scenario init)) = [].
Proof. vm_compute. done. Qed.

(** ** Referential integrity *)

Lemma Exists_update_first (q : gmap string value → Prop) p f xs :
  (∀ o, q (f o) ↔ q o) → Exists q (update_first p f xs) ↔ Exists q xs.
Proof.
  intros Hf. induction xs as [|x xs IH]; simpl; [done|].
  destruct (p x); rewrite !Exists_cons; [by rewrite Hf | by rewrite IH].
Qed.

Lemma Forall_update_first (q : gmap string value → Prop) p f xs :
  (∀ o, q o → q (f o)) → Forall q xs → Forall q (update_first p f xs).
Proof.
  intros Hf. induction 1 as [|x xs Hx Hxs IH]; simpl; [constructor|].
  destruct (p x); constructor; auto.
Qed.

(** Every body keeps referential integrity, [createItem] and [updateItem]
    provided the [listId] they write is the id of a List. *)
Lemma step_ref_integrity o s :
  names_known_list o s → ref_integrity s → ref_integrity (step o s).
Proof.
  unfold ref_integrity, knows_list. intros Hsafe Hri.
  destruct o; simpl in *; try done.
  - eapply Forall_impl; [exact Hri|]. intros item. rewrite Exists_app. tauto.
  - eapply Forall_impl; [exact Hri|]. intros item.
    rewrite Exists_update_first; [done|]. intros o. unfold has_id.
    by rewrite prop_insert_ne.
  - apply Forall_forall. intros item [Hitem Hin]%list_elem_of_filter.
    rewrite Forall_forall in Hri. specialize (Hri item Hin).
    apply Exists_exists in Hri as (l & Hl & Hid). apply Exists_exists.
    exists l. split; [|done]. apply list_elem_of_filter. split; [|done].
    unfold has_id, in_list in *. apply strict_eq_eq in Hid. rewrite Hid.
    by destruct (strict_eq _ id).
  - apply Forall_app. split; [done|]. repeat constructor.
    unfold item_literal. rewrite prop_insert_ne, prop_insert by done. done.
  - apply Forall_update_first; [|done]. intros o Ho.
    destruct (updates !! "listId") as [v|] eqn:Hv.
    + by rewrite (prop_union_Some _ _ _ v).
    + by rewrite prop_union_None.
  - by apply Forall_filter with (f := λ o, negb (has_id id o)).
  - apply Forall_update_first; [|done]. intros o Ho. by rewrite prop_insert_ne.
Qed.

(** C2, as the code has it.  Referential integrity is kept by every
    operation whose [listId], if it writes one, is the id of a List of the
    store its body runs on, which is the store after [await delay()] and
    not the store at the time of the call ([deleteList] keeps it by its
    cascade); so it holds after every sequence of bodies each of which
    meets this condition when it runs.  [createItem] itself does not look
    its [listId] up. *)
Theorem referential_integrity (ops : list op) :
  let st := run ops init in
  (names_known_lists ops init → ref_integrity (observe st)) ∧
  (∀ o, ref_integrity (observe st) → names_known_list o (observe st) →
        ref_integrity (observe (snd (call o st)))).
Proof.
  intros st. split.
  - unfold st. assert (H0 : ref_integrity (observe init)) by constructor.
    assert (Hwf := init_wf). revert H0 Hwf. generalize init.
    induction ops as [|o ops IH]; intros s Hri Hwf Hsafe; simpl in *; [done|].
    destruct Hsafe as [Ho Hsafe]. apply IH; [|by apply call_wf|done].
    rewrite call_observe by done. by apply step_ref_integrity.
  - intros o Hri Ho. rewrite call_observe by apply run_wf, init_wf.
    by apply step_ref_integrity.
Qed.

Lemma referential_integrity_witness :
  names_known_lists scenario init ∧
  ref_integrity (observe (run scenario init)) ∧
  names_known_list (DeleteList (VNum 1)) (observe (run groceries init)) ∧
  ref_integrity (observe (run groceries init)) ∧
  ref_integrity (observe (snd (call (DeleteList (VNum 1)) (run groceries init)))).
Proof.
  assert (H1 : names_known_lists scenario init) by compute_done.
  assert (H2 : names_known_list (DeleteList (VNum 1)) (observe (run groceries init)))
    by exact I.
  assert (H3 : names_known_lists groceries init) by compute_done.
  pose proof (proj1 (referential_integrity groceries) H3) as H4.
  split_and!; try done.
  - exact (proj1 (referential_integrity scenario) H1).
  - exact (proj2 (referential_integrity groceries) _ H4 H2).
Defined.

(** [createItem] with a [listId] that no List has: the Item is stored all
    the same, and its [listId] refers to nothing. *)
Lemma referential_integrity_counterexample :
  ref_integrity (observe init) ∧
  ¬ ref_integrity (observe (run orphan init)).
Proof.
  split; compute_done.
Qed.

(** The condition is on the store the body runs on.  [createItem(1, ...)]
    called while List 1 exists, with a [deleteList(1)] pending whose body
    runs first: the [listId] is known at the time of the call, it is no
    longer known when the body runs, and the Item is stored without a
    List. *)
Example late_item_orphan :
  let called := run groceries init in
  ref_integrity (observe called) ∧
  Forall (λ o, names_known_list o (observe called)) late_item ∧
  ¬ names_known_lists late_item called ∧
  ¬ ref_integrity (observe (run late_item called)).
Proof.
  split_and!; compute_done.
Qed.

(** ** NotFound *)

Lemma no_match_true id xs : no_match id xs = true ↔ Forall (λ o, has_id id o = false) xs.
Proof.
  unfold no_match. rewrite forallb_forall, Forall_forall.
  split; intros H x Hx.
  - apply list_elem_of_In, H in Hx. by destruct (has_id id x).
  - apply list_elem_of_In, H in Hx. by rewrite Hx.
Qed.




(** An id that was never issued. *)
Example not_found_999999 :
  let st := run scenario init in
  fst (updateList (VNum 999999) (VStr "Shopping") st) = Reject (Error "List not found") ∧
  fst (updateItem (VNum 999999) {[ "title" := VStr "Bread" ]} st)
    = Reject (Error "Item not found") ∧
  fst (toggleItem (VNum 999999) st) = Reject (Error "Item not found").
Proof. cbv zeta. split_and!; vm_compute; reflexivity. Qed.

(** ** Deletes *)

Lemma filter_all {A} (f : A → bool) (xs : list A) :
  Forall (λ x, f x = true) xs → filter (λ x, f x) xs = xs.
Proof.
  induction 1 as [|x xs Hx _ IH]; [done|].
  rewrite filter_cons, IH. destruct (decide (f x)) as [|Hfx]; [done|].
  by rewrite Hx in Hfx.
Qed.

Lemma filter_field_twice (h h' : gmap loc cell) (p : value → bool) k (xs : list value) :
  h ⊆ h' → Forall (is_obj_ref h) xs →
  filter (λ v, p (field h' v k)) (filter (λ v, p (field h v k)) xs)
  = filter (λ v, p (field h v k)) xs.
Proof.
  intros Hsub Hxs.
  rewrite (filter_field_weaken h h' p k) by (done || by apply Forall_filter).
  apply (filter_all (λ v, p (field h v k))).
  apply Forall_forall. intros v [Hv _]%list_elem_of_filter. by destruct (p _).
Qed.

Lemma step_delete_twice o s :
  match o with DeleteList _ | DeleteItem _ => step o (step o s) = step o s | _ => True end.
Proof.
  destruct o; try done; simpl; f_equal; rewrite list_filter_filter;
    apply list_filter_iff; tauto.
Qed.

(** C5. [deleteList] and [deleteItem] resolve with [{ success: true }] for
    every id, whether or not anything has it, and a second call with the
    same id resolves again and leaves both collections (the same elements
    in the same order, each with the properties it had), both counters and
    every cell of the heap as the first call left them. *)
Theorem delete_idempotent (ops : list op) (id : value) :
  let st := run ops init in
  (∃ a1 a2 st1 st2,
     deleteList id st = (Resolve (VRef a1), st1) ∧
     deleteList id st1 = (Resolve (VRef a2), st2) ∧
     heap st1 !! a1 = Some success ∧ heap st2 !! a2 = Some success ∧
     list_refs st2 = list_refs st1 ∧ item_refs st2 = item_refs st1 ∧
     observe st2 = observe st1 ∧ heap st1 ⊆ heap st2) ∧
  (∃ a1 a2 st1 st2,
     deleteItem id st = (Resolve (VRef a1), st1) ∧
     deleteItem id st1 = (Resolve (VRef a2), st2) ∧
     heap st1 !! a1 = Some success ∧ heap st2 !! a2 = Some success ∧
     list_refs st2 = list_refs st1 ∧ item_refs st2 = item_refs st1 ∧
     observe st2 = observe st1 ∧ heap st1 ⊆ heap st2).
Proof.
  intros st. assert (Hwf : store_wf st) by apply run_wf, init_wf. split.
  - destruct (deleteList_effect id st Hwf)
      as (a1 & st1 & E1 & _ & Ha1 & Hsub1 & HL1 & HI1 & _ & _ & Hwf1).
    destruct (deleteList_effect id st1 Hwf1)
      as (a2 & st2 & E2 & _ & Ha2 & Hsub2 & HL2 & HI2 & _ & _ & Hwf2).
    exists a1, a2, st1, st2. split_and!; try done.
    + rewrite HL2, HL1.
      apply (filter_field_twice (heap st) (heap st1) (λ x, strict_neq x id)); [done|apply Hwf].
    + rewrite HI2, HI1.
      apply (filter_field_twice (heap st) (heap st1) (λ x, strict_neq x id)); [done|apply Hwf].
    + pose proof (call_observe (DeleteList id) st Hwf) as H1.
      pose proof (call_observe (DeleteList id) st1 Hwf1) as H2.
      unfold call in H1, H2. rewrite E1 in H1. rewrite E2 in H2. cbn [snd] in H1, H2.
      rewrite H2, H1. apply (step_delete_twice (DeleteList id)).
  - destruct (deleteItem_effect id st Hwf)
      as (a1 & st1 & E1 & _ & Ha1 & Hsub1 & HL1 & HI1 & _ & _ & Hwf1).
    destruct (deleteItem_effect id st1 Hwf1)
      as (a2 & st2 & E2 & _ & Ha2 & Hsub2 & HL2 & HI2 & _ & _ & Hwf2).
    exists a1, a2, st1, st2. split_and!; try done.
    + rewrite HI2, HI1.
      apply (filter_field_twice (heap st) (heap st1) (λ x, strict_neq x id)); [done|apply Hwf].
    + pose proof (call_observe (DeleteItem id) st Hwf) as H1.
      pose proof (call_observe (DeleteItem id) st1 Hwf1) as H2.
      unfold call in H1, H2. rewrite E1 in H1. rewrite E2 in H2. cbn [snd] in H1, H2.
      rewrite H2, H1. apply (step_delete_twice (DeleteItem id)).
Qed.

(** ** Create Item *)

Lemma item_literal_props n listId title priority now :
  let item := item_literal n listId title priority now in
  prop item "id" = VNum n ∧ prop item "listId" = listId ∧ prop item "title" = title ∧
  prop item "priority" = priority ∧ prop item "completed" = VBool false ∧
  prop item "createdAt" = VStr now.
Proof.
  cbv zeta. unfold item_literal, prop. split_and!; by simplify_map_eq.
Qed.

(** C6. For every [listId], [title] and [priority], whether or not a List
    has that [listId], [createItem] resolves with a new object that carries
    the value of [nextItemId] as its id, the three arguments, [completed]
    false and the clock reading; the object is pushed at the end of
    [todoItemsData] and the counter moves on by one.  The id was never handed
    out before in the run, and no Item of the store has it unless an
    [updateItem] of the run wrote ids. *)
Theorem create_item (ops : list op) (listId title priority : value) (now : string) :
  let st := run ops init in
  ∃ l st',
    createItem listId title priority now st = (Resolve (VRef l), st') ∧
    heap st !! l = None ∧
    (let item := obj_of (heap st') (VRef l) in
     prop item "id" = VNum (nextItemId st) ∧ prop item "listId" = listId ∧
     prop item "title" = title ∧ prop item "priority" = priority ∧
     prop item "completed" = VBool false ∧ prop item "createdAt" = VStr now ∧
     items st' = items st ++ [item]) ∧
    item_refs st' = item_refs st ++ [VRef l] ∧
    lists st' = lists st ∧
    nextItemId st' = nextItemId st + 1 ∧
    (VNum (nextItemId st) ∉ item_ids_issued ops init) ∧
    (forallb keeps_ids ops = true → VNum (nextItemId st) ∉ ids (items st)).
Proof.
  intros st. assert (Hwf : store_wf st) by apply run_wf, init_wf.
  unfold st in *. clear st. set (st := run ops init) in *.
  pose proof (call_observe (CreateItem listId title priority now) st Hwf) as Hobs.
  unfold call in Hobs.
  destruct (createItem_effect listId title priority now st Hwf)
    as (l & st' & E & Hl & _ & _ & _ & _ & Hn & _ & HI & Hnew & _ & _).
  rewrite E in Hobs. cbn [snd] in Hobs. unfold observe, step in Hobs.
  cbn [s_lists s_items s_nextListId s_nextItemId] in Hobs.
  injection Hobs as HLs HIs _ _.
  destruct (item_literal_props (nextItemId st) listId title priority now)
    as (? & ? & ? & ? & ? & ?).
  exists l, st'. cbv zeta. rewrite Hnew. split_and!; try done.
  - intros Hin. destruct (item_ids_issued_range ops init init_wf) as [Hr _].
    rewrite Forall_forall in Hr. destruct (Hr _ Hin) as (n & Hn' & Hlt).
    injection Hn' as <-. unfold st in Hlt. lia.
  - intros Hk Hin. destruct (run_item_ids_ok ops Hk) as [Hb _]. fold st in Hb.
    unfold ids_below in Hb. rewrite Forall_forall in Hb.
    apply list_elem_of_fmap in Hin as (o & Ho & Hin).
    destruct (Hb o Hin) as (k & Hid & Hlt). simpl in Hlt. rewrite Hid in Ho.
    simplify_eq. lia.
Qed.

Lemma create_item_witness :
  forallb keeps_ids scenario = true ∧
  ∃ l st',
    createItem (VNum 42) (VStr "Bread") (VStr "P1") "2025-01-02T00:00:00.000Z"
      (run scenario init) = (Resolve (VRef l), st') ∧
    VNum (nextItemId (run scenario init)) ∉ ids (items (run scenario init)).
Proof.
  assert (Hk : forallb keeps_ids scenario = true) by reflexivity.
  split; [exact Hk|].
  destruct (create_item scenario (VNum 42) (VStr "Bread") (VStr "P1")
              "2025-01-02T00:00:00.000Z")
    as (l & st' & E & _ & _ & _ & _ & _ & _ & Hfresh).
  exists l, st'. split; [exact E | exact (Hfresh Hk)].
Defined.

(** ** Updates keep id and creation time *)

Lemma fmap_update_first {B} (g : gmap string value → B) p f xs :
  (∀ o, g (f o) = g o) → g <$> update_first p f xs = g <$> xs.
Proof.
  intros Hf. induction xs as [|x xs IH]; [done|]. cbn [update_first].
  destruct (p x); rewrite !fmap_cons; [by rewrite Hf | by rewrite IH].
Qed.

Lemma stamp_insert (o : gmap string value) k v :
  k ≠ "id" → k ≠ "createdAt" → stamp (<[k := v]> o) = stamp o.
Proof. intros. unfold stamp. by rewrite !prop_insert_ne. Qed.

Lemma stamp_union (updates o : gmap string value) :
  updates !! "id" = None → updates !! "createdAt" = None →
  stamp (own_writes updates ∪ o) = stamp o.
Proof. intros. unfold stamp. by rewrite !prop_union_None. Qed.

(** Right after [createList], [updateList] on the id just handed out finds
    the new List and no other. *)
Lemma createList_then_updateList title now title' st :
  store_wf st → list_ids_ok (observe st) →
  ∃ l st1 st2,
    createList title now st = (Resolve (VRef l), st1) ∧
    updateList (VNum (nextListId st)) title' st1 = (Resolve (VRef l), st2) ∧
    obj_of (heap st1) (VRef l) = list_literal (nextListId st) title now ∧
    obj_of (heap st2) (VRef l) = <["title" := title']> (list_literal (nextListId st) title now) ∧
    lists st2 = lists st ++ [<["title" := title']> (list_literal (nextListId st) title now)].
Proof.
  intros Hwf [Hb _].
  destruct (createList_effect title now st Hwf)
    as (l & st1 & E1 & Hl & _ & _ & _ & _ & _ & HL & _ & Hnew & Hkeep & Hwf1).
  pose proof (call_observe (CreateList title now) st Hwf) as Hobs1.
  unfold call in Hobs1. rewrite E1 in Hobs1. cbn [snd] in Hobs1.
  apply (f_equal s_lists) in Hobs1. unfold observe, step in Hobs1.
  cbn [s_lists s_nextListId] in Hobs1.
  set (id := VNum (nextListId st)). set (lit := list_literal (nextListId st) title now) in *.
  assert (Hpre : Forall (λ o, has_id id o = false) (lists st)).
  { simpl in Hb. eapply Forall_impl; [exact Hb|]. intros o (k & Hk & Hlt).
    unfold has_id, id. rewrite Hk. simpl. apply bool_decide_eq_false. intros [= ->]. lia. }
  assert (Hlit : has_id id lit = true).
  { unfold has_id, lit, id. rewrite list_literal_id. apply strict_eq_num. }
  pose proof (call_observe (UpdateList id title') st1 Hwf1) as Hobs2.
  apply (f_equal s_lists) in Hobs2. unfold observe, step in Hobs2.
  cbn [s_lists call] in Hobs2. rewrite Hobs1 in Hobs2.
  rewrite update_first_app in Hobs2 by done.
  destruct (updateList_effect id title' st1 Hwf1)
    as [[Hno _]|(l' & o & pre & post & Hl' & Hrefs & Hp & Hnone & E2)].
  { exfalso. rewrite Hobs1, Forall_app, Forall_singleton in Hno.
    destruct Hno as [_ Hno]. congruence. }
  assert (l' = l) as ->.
  { assert (Hin : VRef l' ∈ list_refs st ++ [VRef l]).
    { rewrite <- HL, Hrefs. apply elem_of_app. right. constructor. }
    apply elem_of_app in Hin as [Hin|Hin%list_elem_of_singleton]; [|congruence].
    exfalso. rewrite Forall_forall in Hpre.
    assert (Ho : obj_of (heap st) (VRef l') = o).
    { rewrite <- Hkeep by (pose proof (wf_list_refs st Hwf) as HF;
        rewrite Forall_forall in HF; by apply HF).
      simpl. unfold obj_at. by rewrite Hl'. }
    specialize (Hpre o). rewrite Hp in Hpre. apply diff_true_false, Hpre.
    rewrite <- Ho. unfold lists. apply list_elem_of_fmap. eauto. }
  assert (o = lit) as ->.
  { simpl in Hnew. unfold obj_at in Hnew. by rewrite Hl' in Hnew. }
  exists l, st1, (set_heap (<[l := CObj (<["title" := title']> lit)]> (heap st1)) st1).
  rewrite E2 in Hobs2. cbn [snd] in Hobs2. split_and!; try done.
  simpl. apply obj_at_insert.
Qed.

(** C7, as the code has it.  [updateList], [toggleItem], and [updateItem]
    whose updates name neither [id] nor [createdAt], leave the id and the
    creation time of every List and every Item as they were.  A List created
    with one title and then updated to another reads back with the new
    title and with the id and creation time it got at creation. *)
Theorem update_keeps_stamp (ops : list op) :
  let st := run ops init in
  (∀ id title,
     stamp <$> lists (snd (updateList id title st)) = stamp <$> lists st ∧
     stamp <$> items (snd (updateList id title st)) = stamp <$> items st) ∧
  (∀ id updates,
     updates !! "id" = None → updates !! "createdAt" = None →
     stamp <$> lists (snd (updateItem id updates st)) = stamp <$> lists st ∧
     stamp <$> items (snd (updateItem id updates st)) = stamp <$> items st) ∧
  (∀ id,
     stamp <$> lists (snd (toggleItem id st)) = stamp <$> lists st ∧
     stamp <$> items (snd (toggleItem id st)) = stamp <$> items st) ∧
  (∀ title now title',
     ∃ l st1 st2,
       createList title now st = (Resolve (VRef l), st1) ∧
       updateList (field (heap st1) (VRef l) "id") title' st1 = (Resolve (VRef l), st2) ∧
       field (heap st2) (VRef l) "title" = title' ∧
       stamp (obj_of (heap st2) (VRef l)) = stamp (obj_of (heap st1) (VRef l)) ∧
       stamp (obj_of (heap st1) (VRef l)) = (VNum (nextListId st), VStr now) ∧
       last (lists st2) = Some (obj_of (heap st2) (VRef l))).
Proof.
  intros st. assert (Hwf : store_wf st) by apply run_wf, init_wf. split_and!.
  - intros id title.
    pose proof (call_observe (UpdateList id title) st Hwf) as H.
    unfold observe, step in H. cbn [call s_lists s_items] in H.
    injection H as -> -> _ _. split; [|done].
    apply fmap_update_first. intros o. by apply stamp_insert.
  - intros id updates Hid Hat.
    pose proof (call_observe (UpdateItem id updates) st Hwf) as H.
    unfold observe, step in H. cbn [call s_lists s_items] in H.
    injection H as -> -> _ _. split; [done|].
    apply fmap_update_first. intros o. by apply stamp_union.
  - intros id.
    pose proof (call_observe (ToggleItem id) st Hwf) as H.
    unfold observe, step in H. cbn [call s_lists s_items] in H.
    injection H as -> -> _ _. split; [done|].
    apply fmap_update_first. intros o. by apply stamp_insert.
  - intros title now title'.
    destruct (createList_then_updateList title now title' st Hwf (run_list_ids_ok ops))
      as (l & st1 & st2 & E1 & E2 & H1 & H2 & HL).
    exists l, st1, st2. unfold field. rewrite H1, H2, HL, list_literal_id.
    split_and!; try done;
      first [apply prop_insert | by apply stamp_insert | apply last_snoc].
Qed.

Lemma update_keeps_stamp_witness :
  let updates : gmap string value := <["title" := VStr "Oat milk"]> {[ "priority" := VStr "P1" ]} in
  let st := run groceries init in
  updates !! "id" = None ∧ updates !! "createdAt" = None ∧
  stamp <$> lists (snd (updateItem (VNum 1) updates st)) = stamp <$> lists st ∧
  stamp <$> items (snd (updateItem (VNum 1) updates st)) = stamp <$> items st.
Proof.
  cbv zeta.
  assert (H1 : (<["title" := VStr "Oat milk"]> {[ "priority" := VStr "P1" ]}
                 : gmap string value) !! "id" = None) by reflexivity.
  assert (H2 : (<["title" := VStr "Oat milk"]> {[ "priority" := VStr "P1" ]}
                 : gmap string value) !! "createdAt" = None) by reflexivity.
  split; [exact H1|]. split; [exact H2|].
  exact (proj1 (proj2 (update_keeps_stamp groceries)) (VNum 1) _ H1 H2).
Defined.

(** "Groceries" becomes "Shopping". *)
Example groceries_to_shopping :
  let st1 := run [CreateList (VStr "Groceries") "2025-01-01T00:00:00.000Z"] init in
  let st2 := snd (updateList (VNum 1) (VStr "Shopping") st1) in
  (λ o, (stamp o, prop o "title")) <$> lists st1
    = [((VNum 1, VStr "2025-01-01T00:00:00.000Z"), VStr "Groceries")] ∧
  (λ o, (stamp o, prop o "title")) <$> lists st2
    = [((VNum 1, VStr "2025-01-01T00:00:00.000Z"), VStr "Shopping")].
Proof. cbv zeta. split; vm_compute; reflexivity. Qed.

(** [updateItem] with [id] and [createdAt] among the updates overwrites
    both: [Object.assign] copies whatever properties it is given. *)
Lemma update_keeps_stamp_counterexample :
  stamp <$> items (run groceries init)
    = [(VNum 1, VStr "2025-01-01T00:00:01.000Z")] ∧
  stamp <$> items (run restamp init)
    = [(VNum 99, VStr "1970-01-01T00:00:00.000Z")].
Proof. split; vm_compute; reflexivity. Qed.

(** ** Toggle *)

(** C8. When some Item has the given id, [toggleItem] resolves with the
    first such Item of the collection; its [completed] is the negation of
    what it was and its other properties are what they were; every other
    cell of the heap, hence every other Item and every List, is as it was,
    and so are the two arrays and the two counters. *)
Theorem toggle_item (ops : list op) (id : value) :
  let st := run ops init in
  no_match id (items st) = false →
  ∃ l o pre post st',
    toggleItem id st = (Resolve (VRef l), st') ∧
    item_refs st = pre ++ VRef l :: post ∧
    heap st !! l = Some (CObj o) ∧ has_id id o = true ∧
    Forall (λ v, has_id id (obj_of (heap st) v) = false) pre ∧
    (VRef l ∉ pre ++ post) ∧
    (let o' := obj_of (heap st') (VRef l) in
     prop o' "completed" = js_not (prop o "completed") ∧
     (∀ b, prop o "completed" = VBool b → prop o' "completed" = VBool (negb b)) ∧
     (∀ k, k ≠ "completed" → o' !! k = o !! k)) ∧
    (∀ l', l' ≠ l → heap st' !! l' = heap st !! l') ∧
    (∀ v, v ∈ list_refs st ++ pre ++ post → obj_of (heap st') v = obj_of (heap st) v) ∧
    list_refs st' = list_refs st ∧ item_refs st' = item_refs st ∧
    nextListId st' = nextListId st ∧ nextItemId st' = nextItemId st.
Proof.
  intros st Hsome. assert (Hwf : store_wf st) by apply run_wf, init_wf.
  destruct (toggleItem_effect id st Hwf)
    as [[Hno _]|(l & o & pre & post & Hl & Hrefs & Hp & Hpre & E)].
  { apply no_match_true in Hno. congruence. }
  destruct (wf_set_obj st l o (<["completed" := js_not (prop o "completed")]> o) Hwf Hl)
    as (HL & HI & _).
  pose proof (wf_nodup st Hwf) as Hnd. rewrite Hrefs in Hnd.
  apply NoDup_app in Hnd as (_ & Hd1 & Hd2).
  apply NoDup_app in Hd2 as (_ & Hd2 & Hd3). apply NoDup_cons in Hd3 as [Hpost _].
  assert (Hpre' : VRef l ∉ pre) by (intros Hin; apply (Hd2 _ Hin); constructor).
  assert (Hlists : VRef l ∉ list_refs st).
  { intros Hin. apply (Hd1 _ Hin), elem_of_app. right. constructor. }
  eexists l, o, pre, post, _. split; [exact E|]. split_and!; try done.
  - rewrite not_elem_of_app. done.
  - cbv zeta. simpl. rewrite obj_at_insert. split_and!.
    + apply prop_insert.
    + intros b Hb. by rewrite prop_insert, Hb.
    + intros k Hk. by rewrite lookup_insert_ne.
  - intros l' Hne. simpl. by rewrite lookup_insert_ne.
  - intros v Hv. simpl. apply obj_of_insert_ne. intros ->.
    rewrite !elem_of_app in Hv. tauto.
Qed.

Lemma toggle_item_witness :
  let st := run groceries init in
  no_match (VNum 1) (items st) = false ∧
  ∃ l st', toggleItem (VNum 1) st = (Resolve (VRef l), st') ∧
           prop (obj_of (heap st') (VRef l)) "completed"
             = js_not (prop (obj_of (heap st) (VRef l)) "completed").
Proof.
  cbv zeta.
  assert (H : no_match (VNum 1) (items (run groceries init)) = false)
    by (vm_compute; reflexivity).
  split; [exact H|].
  destruct (toggle_item groceries (VNum 1) H)
    as (l & o & pre & post & st' & E & _ & Hl & _ & _ & _ & (Hc & _) & _).
  exists l, st'. split; [exact E|].
  simpl in *. unfold obj_at at 2. by rewrite Hl.
Defined.

(** Toggling twice: true, then false again. *)
Example toggle_twice :
  let st1 := run (groceries ++ [ToggleItem (VNum 1)]) init in
  let st2 := run (groceries ++ [ToggleItem (VNum 1); ToggleItem (VNum 1)]) init in
  (λ o, prop o "completed") <$> items st1 = [VBool true] ∧
  (λ o, prop o "completed") <$> items st2 = [VBool false].
Proof. cbv zeta. split_and!; vm_compute; reflexivity. Qed.

(** ** What a delete removes *)

(** C10. [deleteList] leaves in [todoListsData] exactly the Lists whose id
    is not the given one and in [todoItemsData] exactly the Items whose
    [listId] is not the given one, in the order they had; [deleteItem]
    leaves [todoListsData] as it is and in [todoItemsData] exactly the Items
    whose id is not the given one, in the order they had.  No cell of the
    heap is written, so every surviving object keeps all its properties, and
    neither counter moves. *)
Theorem delete_exact (ops : list op) (id : value) :
  let st := run ops init in
  (let st' := snd (deleteList id st) in
   list_refs st' = filter (λ l, negb (has_id id (obj_of (heap st) l))) (list_refs st) ∧
   item_refs st' = filter (λ i, negb (in_list id (obj_of (heap st) i))) (item_refs st) ∧
   lists st' = filter (λ l, negb (has_id id l)) (lists st) ∧
   items st' = filter (λ i, negb (in_list id i)) (items st) ∧
   list_refs st' `sublist_of` list_refs st ∧ item_refs st' `sublist_of` item_refs st ∧
   heap st ⊆ heap st' ∧
   nextListId st' = nextListId st ∧ nextItemId st' = nextItemId st) ∧
  (let st' := snd (deleteItem id st) in
   list_refs st' = list_refs st ∧
   item_refs st' = filter (λ i, negb (has_id id (obj_of (heap st) i))) (item_refs st) ∧
   lists st' = lists st ∧
   items st' = filter (λ i, negb (has_id id i)) (items st) ∧
   item_refs st' `sublist_of` item_refs st ∧
   heap st ⊆ heap st' ∧
   nextListId st' = nextListId st ∧ nextItemId st' = nextItemId st).
Proof.
  intros st. assert (Hwf : store_wf st) by apply run_wf, init_wf. split; cbv zeta.
  - pose proof (call_observe (DeleteList id) st Hwf) as Hobs. unfold call in Hobs.
    destruct (deleteList_effect id st Hwf)
      as (a & st' & E & _ & _ & Hsub & HL & HI & Hn1 & Hn2 & _).
    rewrite E in Hobs |- *. cbn [snd] in Hobs |- *.
    unfold observe, step in Hobs. cbn [s_lists s_items] in Hobs.
    injection Hobs as HLs HIs _ _.
    split_and!; try done.
    + rewrite HL. apply sublist_filter.
    + rewrite HI. apply sublist_filter.
  - pose proof (call_observe (DeleteItem id) st Hwf) as Hobs. unfold call in Hobs.
    destruct (deleteItem_effect id st Hwf)
      as (a & st' & E & _ & _ & Hsub & HL & HI & Hn1 & Hn2 & _).
    rewrite E in Hobs |- *. cbn [snd] in Hobs |- *.
    unfold observe, step in Hobs. cbn [s_lists s_items] in Hobs.
    injection Hobs as HLs HIs _ _.
    split_and!; try done.
    rewrite HI. apply sublist_filter.
Qed.

(** Deleting the first of two Lists: the second List and its Item stay, in
    place, with everything they had. *)
Example delete_first_of_two :
  let before :=
    run [ CreateList (VStr "Groceries") "2025-01-01T00:00:00.000Z";
          CreateList (VStr "Chores") "2025-01-01T00:00:01.000Z";
          CreateItem (VNum 1) (VStr "Milk") (VStr "P2") "2025-01-01T00:00:02.000Z";
          CreateItem (VNum 2) (VStr "Dishes") (VStr "P3") "2025-01-01T00:00:03.000Z" ] init in
  let after := snd (deleteList (VNum 1) before) in
  list_refs before = [VRef 3; VRef 4]%positive ∧
  item_refs before = [VRef 5; VRef 6]%positive ∧
  list_refs after = [VRef 4]%positive ∧ item_refs after = [VRef 6]%positive ∧
  (λ o, prop o "title") <$> lists after = [VStr "Chores"] ∧
  (λ o, prop o "title") <$> items after = [VStr "Dishes"] ∧
  (nextListId after, nextItemId after) = (3, 3).
Proof. cbv zeta. split_and!; vm_compute; reflexivity. Qed.

(** ** Writes to a cell the store does not reference *)

Section caller.
Variables (a : loc) (c : cell).

Lemma fresh_insert_same (h : gmap loc cell) :
  is_Some (h !! a) → fresh (dom (<[a := c]> h)) = fresh (dom h).
Proof. intros Ha. by rewrite dom_insert_lookup_L. Qed.

Lemma fresh_ne (h : gmap loc cell) : is_Some (h !! a) → fresh (dom h) ≠ a.
Proof. intros [x Hx] Heq. pose proof (fresh_lookup h) as Hf. congruence. Qed.

Lemma alloc_insert_same (h : gmap loc cell) x :
  is_Some (h !! a) →
  <[fresh (dom (<[a := c]> h)) := x]> (<[a := c]> h) = <[a := c]> (<[fresh (dom h) := x]> h).
Proof.
  intros Ha. rewrite fresh_insert_same by done.
  apply insert_insert_ne. by apply fresh_ne.
Qed.

Lemma field_insert_ne (h : gmap loc cell) v k :
  v ≠ VRef a → field (<[a := c]> h) v k = field h v k.
Proof. intros. unfold field. by rewrite obj_of_insert_ne. Qed.

Lemma filter_field_insert (h : gmap loc cell) (p : value → bool) k (xs : list value) :
  VRef a ∉ xs →
  filter (λ v, p (field (<[a := c]> h) v k)) xs = filter (λ v, p (field h v k)) xs.
Proof.
  intros Hxs.
  apply (filter_ext_elem (λ v, p (field (<[a := c]> h) v k)) (λ v, p (field h v k))).
  intros v Hv. rewrite field_insert_ne; [done|]. by intros ->.
Qed.

Lemma find_field_insert (h : gmap loc cell) (p : value → bool) k (xs : list value) :
  VRef a ∉ xs →
  List.find (λ v, p (field (<[a := c]> h) v k)) xs = List.find (λ v, p (field h v k)) xs.
Proof.
  induction xs as [|x xs IH]; [done|]. intros [Hx Hxs]%not_elem_of_cons. simpl.
  rewrite field_insert_ne by done. by rewrite IH.
Qed.

Lemma list_refs_caller_writes st :
  a ≠ todoListsData st → list_refs (caller_writes a c st) = list_refs st.
Proof. intros. unfold list_refs. simpl. by rewrite arr_at_insert_ne. Qed.

Lemma item_refs_caller_writes st :
  a ≠ todoItemsData st → item_refs (caller_writes a c st) = item_refs st.
Proof. intros. unfold item_refs. simpl. by rewrite arr_at_insert_ne. Qed.

Lemma find_list_caller_writes id st :
  unreferenced a st → find_list id (caller_writes a c st) = find_list id st.
Proof.
  intros (_ & ? & _ & ? & _). unfold find_list.
  rewrite list_refs_caller_writes by done. simpl.
  by rewrite (find_field_insert (heap st) (λ x, strict_eq x id)).
Qed.

Lemma find_item_caller_writes id st :
  unreferenced a st → find_item id (caller_writes a c st) = find_item id st.
Proof.
  intros (_ & _ & ? & _ & ?). unfold find_item.
  rewrite item_refs_caller_writes by done. simpl.
  by rewrite (find_field_insert (heap st) (λ x, strict_eq x id)).
Qed.

(** The element [find] returns is not the unreferenced cell. *)
Lemma find_list_ne id st : unreferenced a st → find_list id st ≠ VRef a.
Proof.
  intros (_ & _ & _ & Hl & _) Heq. unfold find_list in Heq.
  destruct (List.find _ _) as [v|] eqn:Hfind; simpl in Heq; [|done]. subst v.
  apply List.find_some in Hfind as [Hin _]. by apply list_elem_of_In in Hin.
Qed.

Lemma find_item_ne id st : unreferenced a st → find_item id st ≠ VRef a.
Proof.
  intros (_ & _ & _ & _ & Hi) Heq. unfold find_item in Heq.
  destruct (List.find _ _) as [v|] eqn:Hfind; simpl in Heq; [|done]. subst v.
  apply List.find_some in Hfind as [Hin _]. by apply list_elem_of_In in Hin.
Qed.

Lemma set_field_caller_writes v k w st :
  v ≠ VRef a →
  snd (set_field v k w (caller_writes a c st)) = caller_writes a c (snd (set_field v k w st)).
Proof.
  intros Hv. destruct v; try done. simpl. unfold caller_writes, set_heap. simpl.
  assert (l ≠ a) by congruence.
  rewrite obj_at_insert_ne by done. f_equal. by apply insert_insert_ne.
Qed.

Lemma object_assign_caller_writes v updates st :
  v ≠ VRef a →
  snd (object_assign v updates (caller_writes a c st))
  = caller_writes a c (snd (object_assign v updates st)).
Proof.
  intros Hv. destruct v; try done. simpl. unfold caller_writes, set_heap. simpl.
  assert (l ≠ a) by congruence.
  rewrite obj_at_insert_ne by done. f_equal. by apply insert_insert_ne.
Qed.
End caller.

(** A body reads and writes the same whether or not the caller has written
    to a cell the store does not reference; the caller's write is still
    there afterwards. *)
Lemma call_caller_writes a c o st :
  store_wf st → unreferenced a st →
  call o (caller_writes a c st) = (fst (call o st), caller_writes a c (snd (call o st))).
Proof.
  intros Hwf Hun. pose proof Hun as (Ha & Hal & Hai & HaL & HaI).
  assert (Hfa : fresh (dom (heap st)) ≠ a) by by apply fresh_ne.
  destruct o; unfold call.
  - rewrite !getAllLists_eq. cbv zeta. rewrite (list_refs_caller_writes a c) by done.
    unfold caller_writes at 1 2 3. cbn [heap set_heap fst snd].
    rewrite (fresh_insert_same a c) by done. unfold caller_writes, set_heap. simpl.
    do 2 f_equal. by apply insert_insert_ne.
  - rewrite !createList_eq. cbv zeta.
    unfold caller_writes. cbn [heap set_heap fst snd todoListsData todoItemsData
      nextListId nextItemId].
    rewrite (fresh_insert_same a c) by done.
    set (l := fresh (dom (heap st))) in *. set (o := list_literal _ _ _).
    f_equal. unfold set_heap. cbn [heap todoListsData todoItemsData nextListId nextItemId].
    rewrite (insert_insert_ne (heap st) l a) by done.
    rewrite (arr_at_insert_ne (<[l := CObj o]> (heap st)) a) by done.
    f_equal. by apply insert_insert_ne.
  - rewrite !updateList_eq. cbv zeta. rewrite (find_list_caller_writes a c) by done.
    destruct (truthy (find_list id st)); [|done]. cbn [fst snd]. f_equal.
    apply set_field_caller_writes. by apply find_list_ne.
  - rewrite !deleteList_eq. cbv zeta. rewrite (list_refs_caller_writes a c) by done.
    unfold caller_writes. cbn [heap set_heap fst snd todoListsData todoItemsData
      nextListId nextItemId].
    rewrite (filter_field_insert a c (heap st) (λ x, strict_neq x id)) by done.
    rewrite (alloc_insert_same a c) by done.
    set (h1 := <[fresh (dom (heap st)) := _]> (heap st)).
    assert (Hsub1 : heap st ⊆ h1) by apply alloc_subseteq.
    assert (Ha1 : is_Some (h1 !! a)).
    { destruct Ha as [x Hx]. exists x. by eapply lookup_weaken. }
    rewrite (arr_at_insert_ne h1 a) by done.
    rewrite (filter_field_insert a c h1 (λ x, strict_neq x id))
      by (by rewrite (item_refs_weaken st h1)).
    rewrite (alloc_insert_same a c) by done.
    set (h2 := <[fresh (dom h1) := _]> h1).
    assert (Ha2 : is_Some (h2 !! a)).
    { destruct Ha1 as [x Hx]. exists x. eapply lookup_weaken; [done|apply alloc_subseteq]. }
    rewrite (alloc_insert_same a c) by done. rewrite ?(fresh_insert_same a c) by done.
    done.
  - rewrite !getItemsByList_eq. cbv zeta. rewrite (item_refs_caller_writes a c) by done.
    unfold caller_writes at 1 2 3. cbn [heap set_heap fst snd].
    rewrite (filter_field_insert a c (heap st) (λ x, strict_eq x listId)) by done.
    rewrite (fresh_insert_same a c) by done. unfold caller_writes, set_heap. simpl.
    do 2 f_equal. by apply insert_insert_ne.
  - rewrite !createItem_eq. cbv zeta.
    unfold caller_writes. cbn [heap set_heap fst snd todoListsData todoItemsData
      nextListId nextItemId].
    rewrite (fresh_insert_same a c) by done.
    set (l := fresh (dom (heap st))) in *. set (o := item_literal _ _ _ _ _).
    f_equal. unfold set_heap. cbn [heap todoListsData todoItemsData nextListId nextItemId].
    rewrite (insert_insert_ne (heap st) l a) by done.
    rewrite (arr_at_insert_ne (<[l := CObj o]> (heap st)) a) by done.
    f_equal. by apply insert_insert_ne.
  - rewrite !updateItem_eq. cbv zeta. rewrite (find_item_caller_writes a c) by done.
    destruct (truthy (find_item id st)); [|done]. cbn [fst snd]. f_equal.
    apply object_assign_caller_writes. by apply find_item_ne.
  - rewrite !deleteItem_eq. cbv zeta. rewrite (item_refs_caller_writes a c) by done.
    unfold caller_writes. cbn [heap set_heap fst snd todoListsData todoItemsData
      nextListId nextItemId].
    rewrite (filter_field_insert a c (heap st) (λ x, strict_neq x id)) by done.
    rewrite (alloc_insert_same a c) by done.
    set (h1 := <[fresh (dom (heap st)) := _]> (heap st)).
    assert (Ha1 : is_Some (h1 !! a)).
    { destruct Ha as [x Hx]. exists x. eapply lookup_weaken; [done|apply alloc_subseteq]. }
    rewrite (alloc_insert_same a c) by done. rewrite ?(fresh_insert_same a c) by done.
    done.
  - rewrite !toggleItem_eq. cbv zeta. rewrite (find_item_caller_writes a c) by done.
    destruct (truthy (find_item id st)) eqn:Ht; [|done]. cbn [fst snd]. f_equal.
    pose proof (find_item_ne a id st Hun) as Hne.
    cbn [heap caller_writes set_heap]. rewrite field_insert_ne by done.
    by apply set_field_caller_writes.
Qed.

Lemma deleteList_vars id st :
  heap st !! todoListsData (snd (deleteList id st)) = None ∧
  heap st !! todoItemsData (snd (deleteList id st)) = None.
Proof.
  rewrite deleteList_eq. cbv zeta. cbn [snd todoListsData todoItemsData]. split.
  - apply fresh_lookup.
  - eapply lookup_weaken_None; [apply fresh_lookup|apply alloc_subseteq].
Qed.

Lemma deleteItem_vars id st :
  todoListsData (snd (deleteItem id st)) = todoListsData st ∧
  heap st !! todoItemsData (snd (deleteItem id st)) = None.
Proof.
  rewrite deleteItem_eq. cbv zeta. cbn [snd todoListsData todoItemsData]. split; [done|].
  apply fresh_lookup.
Qed.

Lemma unreferenced_weaken a st st' :
  unreferenced a st → heap st ⊆ heap st' →
  (todoListsData st' = todoListsData st ∨ heap st !! todoListsData st' = None) →
  (todoItemsData st' = todoItemsData st ∨ heap st !! todoItemsData st' = None) →
  list_refs st' ⊆ list_refs st → item_refs st' ⊆ item_refs st →
  unreferenced a st'.
Proof.
  intros ([x Hx] & Hal & Hai & HaL & HaI) Hsub Hl Hi HL HI. split_and!.
  - exists x. by eapply lookup_weaken.
  - destruct Hl as [Hl|Hl]; [by rewrite Hl|]. intros Heq. rewrite <- Heq in Hl. congruence.
  - destruct Hi as [Hi|Hi]; [by rewrite Hi|]. intros Heq. rewrite <- Heq in Hi. congruence.
  - intros Hin. by apply HaL, HL.
  - intros Hin. by apply HaI, HI.
Qed.

Lemma unreferenced_set_obj a st l o o' :
  store_wf st → unreferenced a st → heap st !! l = Some (CObj o) →
  unreferenced a (set_heap (<[l := CObj o']> (heap st)) st).
Proof.
  intros Hwf (Ha & Hal & Hai & HaL & HaI) Hl.
  destruct (wf_set_obj st l o o' Hwf Hl) as (HL & HI & _).
  split_and!; try done.
  - simpl. apply lookup_insert_is_Some'. by right.
  - by rewrite HL.
  - by rewrite HI.
Qed.

Lemma call_unreferenced a o st :
  store_wf st → unreferenced a st → unreferenced a (snd (call o st)).
Proof.
  intros Hwf Hun. destruct o; unfold call.
  - destruct (getAllLists_effect st Hwf)
      as (l & st' & -> & Hl & Hh & Htl & Hti & _ & _ & HL & HI & _). cbn [snd].
    apply (unreferenced_weaken a st); rewrite ?HL, ?HI; auto.
    rewrite Hh. by apply insert_subseteq.
  - destruct (createList_effect title now st Hwf)
      as (l & st' & -> & Hl & Hh & Htl & Hti & _ & _ & HL & HI & _). cbn [snd].
    destruct Hun as (Ha & Hal & Hai & HaL & HaI).
    assert (a ≠ l) by (intros ->; destruct Ha; congruence).
    split_and!; rewrite ?Htl, ?Hti, ?HL, ?HI; try done.
    + rewrite Hh. apply lookup_insert_is_Some'. right. apply lookup_insert_is_Some'. by right.
    + rewrite not_elem_of_app, list_elem_of_singleton. split; [done|congruence].
  - destruct (updateList_effect id title st Hwf)
      as [[_ ->]|(l & o & pre & post & Hl & _ & _ & _ & ->)]; [done|]. cbn [snd].
    by eapply unreferenced_set_obj.
  - destruct (deleteList_vars id st) as [Htl Hti].
    destruct (deleteList_effect id st Hwf) as (l & st' & E & _ & _ & Hsub & HL & HI & _).
    rewrite E in Htl, Hti |- *. cbn [snd] in *.
    apply (unreferenced_weaken a st); rewrite ?HL, ?HI; auto; apply list_subseteq_filter.
  - destruct (getItemsByList_effect listId st Hwf)
      as (l & st' & -> & Hl & Hh & Htl & Hti & _ & _ & HL & HI & _). cbn [snd].
    apply (unreferenced_weaken a st); rewrite ?HL, ?HI; auto.
    rewrite Hh. by apply insert_subseteq.
  - destruct (createItem_effect listId title priority now st Hwf)
      as (l & st' & -> & Hl & Hh & Htl & Hti & _ & _ & HL & HI & _). cbn [snd].
    destruct Hun as (Ha & Hal & Hai & HaL & HaI).
    assert (a ≠ l) by (intros ->; destruct Ha; congruence).
    split_and!; rewrite ?Htl, ?Hti, ?HL, ?HI; try done.
    + rewrite Hh. apply lookup_insert_is_Some'. right. apply lookup_insert_is_Some'. by right.
    + rewrite not_elem_of_app, list_elem_of_singleton. split; [done|congruence].
  - destruct (updateItem_effect id updates st Hwf)
      as [[_ ->]|(l & o & pre & post & Hl & _ & _ & _ & ->)]; [done|]. cbn [snd].
    by eapply unreferenced_set_obj.
  - destruct (deleteItem_vars id st) as [Htl Hti].
    destruct (deleteItem_effect id st Hwf) as (l & st' & E & _ & _ & Hsub & HL & HI & _).
    rewrite E in Htl, Hti |- *. cbn [snd] in *.
    apply (unreferenced_weaken a st); rewrite ?HL, ?HI; auto. apply list_subseteq_filter.
  - destruct (toggleItem_effect id st Hwf)
      as [[_ ->]|(l & o & pre & post & Hl & _ & _ & _ & ->)]; [done|]. cbn [snd].
    by eapply unreferenced_set_obj.
Qed.

(** The same over a run: every later call resolves or rejects with the same
    value, and the store ends up the same, the caller's cell apart. *)
Lemma run_caller_writes a c ops st :
  store_wf st → unreferenced a st →
  results ops (caller_writes a c st) = results ops st ∧
  run ops (caller_writes a c st) = caller_writes a c (run ops st) ∧
  unreferenced a (run ops st).
Proof.
  revert st. induction ops as [|o ops IH]; intros st Hwf Hun; [done|].
  cbn [results run]. rewrite (call_caller_writes a c o st Hwf Hun). cbn [fst snd].
  destruct (IH (snd (call o st))) as (-> & -> & ?);
    [by apply call_wf | by apply call_unreferenced |]. done.
Qed.

Lemma observe_caller_writes a c st :
  unreferenced a st → observe (caller_writes a c st) = observe st.
Proof.
  intros (_ & Hal & Hai & HaL & HaI). unfold observe, lists, items.
  rewrite (list_refs_caller_writes a c), (item_refs_caller_writes a c) by done.
  cbn [heap caller_writes set_heap nextListId nextItemId].
  by rewrite !fmap_obj_of_insert.
Qed.

Lemma caller_writes_twice a c c' st :
  caller_writes a c' (caller_writes a c st) = caller_writes a c' st.
Proof. unfold caller_writes, set_heap. simpl. by rewrite insert_insert_eq. Qed.

(** Calls interleaved with any number of writes to the unreferenced cell:
    the calls resolve or reject as they do without the writes, and the
    collections and counters end up the same. *)
Lemma run_events_caller_writes a evs st :
  store_wf st → unreferenced a st →
  (results_events a evs st = results (calls evs) st ∧
   observe (run_events a evs st) = observe (run (calls evs) st)) ∧
  ∀ c, results_events a evs (caller_writes a c st) = results (calls evs) st ∧
       observe (run_events a evs (caller_writes a c st)) = observe (run (calls evs) st).
Proof.
  revert st. induction evs as [|[o|c'] evs IH]; intros st Hwf Hun.
  - split; [done|]. intros c. split; [done|]. by apply observe_caller_writes.
  - cbn [results_events run_events calls results run].
    destruct (IH (snd (call o st))) as [[H1 H2] H3];
      [by apply call_wf | by apply call_unreferenced |].
    split; [by rewrite H1, H2|]. intros c.
    rewrite (call_caller_writes a c o st Hwf Hun). cbn [fst snd].
    destruct (H3 c) as [-> ->]. done.
  - cbn [results_events run_events calls].
    destruct (IH st Hwf Hun) as [_ H3]. split; [apply H3|].
    intros c. rewrite caller_writes_twice. apply H3.
Qed.

(** ** Reads *)

Lemma read_unreferenced a x st :
  store_wf st → heap st !! a = None →
  unreferenced a (set_heap (<[a := x]> (heap st)) st).
Proof.
  intros Hwf Ha. pose proof Hwf as [[xs Hxs] [ys Hys] _ HL HI _].
  assert (Hsub : heap st ⊆ <[a := x]> (heap st)) by by apply insert_subseteq.
  assert (Hobj : ∀ v, is_obj_ref (heap st) v → v ≠ VRef a).
  { intros v (l & o & -> & Hl) [= ->]. congruence. }
  rewrite Forall_forall in HL, HI.
  split_and!; simpl.
  - rewrite lookup_insert_eq. by eexists.
  - intros ->. congruence.
  - intros ->. congruence.
  - change (VRef a ∉ arr_at (<[a := x]> (heap st)) (todoListsData st)).
    rewrite (list_refs_weaken st) by done. intros Hin. by apply (Hobj _ (HL _ Hin)).
  - change (VRef a ∉ arr_at (<[a := x]> (heap st)) (todoItemsData st)).
    rewrite (item_refs_weaken st) by done. intros Hin. by apply (Hobj _ (HI _ Hin)).
Qed.

(** C9, as the code has it.  [getAllLists] resolves with a new array that
    holds the elements of [todoListsData], that is all Lists in the order of
    their creation, and [getItemsByList] with a new array that holds, in
    order, the elements of [todoItemsData] whose [listId] is the given one;
    neither writes to a cell that existed, to a variable or to a counter.
    Whatever the caller writes into the array it received, however often
    and between whichever later calls, those calls resolve or reject with
    the same values and leave the collections and counters in the same
    state.  The elements of the array are the store's own objects. *)
Theorem reads_copy_arrays (ops : list op) :
  let st := run ops init in
  (∃ a st',
     getAllLists st = (Resolve (VRef a), st') ∧
     heap st !! a = None ∧
     heap st' = <[a := CArr (list_refs st)]> (heap st) ∧
     obj_of (heap st') <$> arr_at (heap st') a = lists st ∧
     in_creation_order (lists st) ∧
     todoListsData st' = todoListsData st ∧ todoItemsData st' = todoItemsData st ∧
     nextListId st' = nextListId st ∧ nextItemId st' = nextItemId st ∧
     observe st' = observe st ∧
     (∀ c ops', run ops' (caller_writes a c st') = caller_writes a c (run ops' st')) ∧
     (∀ evs, results_events a evs st' = results (calls evs) st' ∧
             observe (run_events a evs st') = observe (run (calls evs) st'))) ∧
  (∀ listId, ∃ a st',
     getItemsByList listId st = (Resolve (VRef a), st') ∧
     heap st !! a = None ∧
     heap st' = <[a := CArr (filter (λ i, in_list listId (obj_of (heap st) i)) (item_refs st))]>
                  (heap st) ∧
     obj_of (heap st') <$> arr_at (heap st') a = filter (λ i, in_list listId i) (items st) ∧
     todoListsData st' = todoListsData st ∧ todoItemsData st' = todoItemsData st ∧
     nextListId st' = nextListId st ∧ nextItemId st' = nextItemId st ∧
     observe st' = observe st ∧
     (∀ c ops', run ops' (caller_writes a c st') = caller_writes a c (run ops' st')) ∧
     (∀ evs, results_events a evs st' = results (calls evs) st' ∧
             observe (run_events a evs st') = observe (run (calls evs) st'))).
Proof.
  intros st. assert (Hwf : store_wf st) by apply run_wf, init_wf. split.
  - pose proof (call_observe GetAllLists st Hwf) as Hobs. unfold call, step in Hobs.
    destruct (getAllLists_effect st Hwf)
      as (a & st' & E & Ha & Hh & Htl & Hti & Hn1 & Hn2 & _ & _ & Hwf').
    rewrite E in Hobs. cbn [snd] in Hobs.
    assert (Hun : unreferenced a st').
    { pose proof (read_unreferenced a (CArr (list_refs st)) st Hwf Ha) as Hun.
      rewrite getAllLists_eq in E. cbv zeta in E. injection E as _ <-.
      rewrite <- Hh in Hun. exact Hun. }
    exists a, st'. split_and!; try done.
    + rewrite Hh, arr_at_insert. apply fmap_obj_of_weaken; [|apply Hwf].
      by apply insert_subseteq.
    + apply run_creation_order.
    + intros c ops'. apply (run_caller_writes a c ops' st' Hwf' Hun).
    + intros evs. apply (run_events_caller_writes a evs st' Hwf' Hun).
  - intros listId.
    pose proof (call_observe (GetItemsByList listId) st Hwf) as Hobs.
    unfold call, step in Hobs.
    destruct (getItemsByList_effect listId st Hwf)
      as (a & st' & E & Ha & Hh & Htl & Hti & Hn1 & Hn2 & _ & _ & Hwf').
    rewrite E in Hobs. cbn [snd] in Hobs.
    assert (Hun : unreferenced a st').
    { pose proof (read_unreferenced a
        (CArr (filter (λ i, strict_eq (field (heap st) i "listId") listId) (item_refs st)))
        st Hwf Ha) as Hun.
      rewrite getItemsByList_eq in E. cbv zeta in E. injection E as _ <-.
      rewrite <- Hh in Hun. exact Hun. }
    exists a, st'. split_and!; try done.
    + rewrite Hh, arr_at_insert.
      rewrite (fmap_obj_of_weaken (heap st))
        by (by apply insert_subseteq || apply Forall_filter, Hwf).
      apply (fmap_filter (obj_of (heap st)) (λ o, in_list listId o)).
    + intros c ops'. apply (run_caller_writes a c ops' st' Hwf' Hun).
    + intros evs. apply (run_events_caller_writes a evs st' Hwf' Hun).
Qed.

(** The array [getAllLists] resolves with is new, but its element is the
    List object of the store: a title written through it is the title every
    later read finds. *)
Lemma reads_copy_arrays_counterexample :
  let st := run groceries init in
  let st' := snd (getAllLists st) in
  let written := CObj (<["title" := VStr "Overwritten"]> (obj_at (heap st') 3%positive)) in
  fst (getAllLists st) = Resolve (VRef 5%positive) ∧
  arr_at (heap st') 5%positive = [VRef 3%positive] ∧
  (λ o, prop o "title") <$> lists st' = [VStr "Groceries"] ∧
  (λ o, prop o "title") <$> lists (caller_writes 3%positive written st')
    = [VStr "Overwritten"] ∧
  observe (caller_writes 3%positive written st') ≠ observe st'.
Proof.
  cbv zeta. split_and!; try (vm_compute; reflexivity).
  intros H. apply (f_equal (λ s, (λ o, prop o "title") <$> s_lists s)) in H.
  vm_compute in H. discriminate H.
Qed.

(** * Further properties of the code *)

(** ** The shape of the store *)

(** X1. Whatever is called, [todoListsData] and [todoItemsData] are two
    different arrays, every element of either is a reference to an object,
    and no object occurs twice, in one array or across the two: no body ever
    reads a property of something that is not an object. *)
Theorem store_shape (ops : list op) :
  let st := run ops init in
  todoListsData st ≠ todoItemsData st ∧
  (∃ xs ys, heap st !! todoListsData st = Some (CArr xs) ∧
            heap st !! todoItemsData st = Some (CArr ys)) ∧
  Forall (is_obj_ref (heap st)) (list_refs st ++ item_refs st) ∧
  NoDup (list_refs st ++ item_refs st).
Proof.
  intros st. destruct (run_wf ops init init_wf) as [[xs Hxs] [ys Hys] Hne HL HI Hnd].
  split_and!; try done.
  - by exists xs, ys.
  - by apply Forall_app.
Qed.

(** ** Create List *)

(** X2. [createList] resolves with a new object that has exactly the
    properties [id] (the value of [nextListId]), [title] and [createdAt];
    the object is pushed at the end of [todoListsData], the Items and
    [nextItemId] are untouched and [nextListId] moves on by one.  No List
    of the store has the new id and it was never handed out before, whatever
    ran earlier. *)
Theorem create_list (ops : list op) (title : value) (now : string) :
  let st := run ops init in
  ∃ l st',
    createList title now st = (Resolve (VRef l), st') ∧
    heap st !! l = None ∧
    obj_of (heap st') (VRef l) =
      <["id" := VNum (nextListId st)]> (<["title" := title]> {[ "createdAt" := VStr now ]}) ∧
    list_refs st' = list_refs st ++ [VRef l] ∧
    lists st' = lists st ++ [obj_of (heap st') (VRef l)] ∧
    item_refs st' = item_refs st ∧ items st' = items st ∧
    nextListId st' = nextListId st + 1 ∧ nextItemId st' = nextItemId st ∧
    (VNum (nextListId st) ∉ ids (lists st)) ∧
    (VNum (nextListId st) ∉ list_ids_issued ops init).
Proof.
  intros st. assert (Hwf : store_wf st) by apply run_wf, init_wf.
  pose proof (call_observe (CreateList title now) st Hwf) as Hobs. unfold call in Hobs.
  destruct (createList_effect title now st Hwf)
    as (l & st' & E & Hl & _ & _ & _ & Hn1 & Hn2 & HL & HI & Hnew & _ & _).
  rewrite E in Hobs. cbn [snd] in Hobs. unfold observe, step in Hobs.
  cbn [s_lists s_items s_nextListId s_nextItemId] in Hobs.
  injection Hobs as HLs HIs _ _.
  exists l, st'. rewrite Hnew. split_and!; try done.
  - intros Hin. destruct (run_list_ids_ok ops) as [Hb _]. fold st in Hb.
    unfold ids_below in Hb. rewrite Forall_forall in Hb.
    apply list_elem_of_fmap in Hin as (o & Ho & Hin).
    destruct (Hb o Hin) as (k & Hid & Hlt). simpl in Hlt. rewrite Hid in Ho.
    injection Ho as Hk. lia.
  - intros Hin. destruct (list_ids_issued_range ops init init_wf) as [Hr _].
    rewrite Forall_forall in Hr. destruct (Hr _ Hin) as (n & Hn' & Hlt).
    injection Hn' as <-. unfold st in Hlt. lia.
Qed.


(** ** Updates *)

Lemma unique_match id (xs ys : list (gmap string value)) o :
  NoDup (ids (xs ++ o :: ys)) → has_id id o = true →
  Forall (λ o', has_id id o' = false) (xs ++ ys).
Proof.
  intros Hnd Ho. apply strict_eq_eq in Ho.
  unfold ids in Hnd. rewrite fmap_app, fmap_cons in Hnd.
  apply NoDup_app in Hnd as (_ & Hx & Hy). apply NoDup_cons in Hy as [Hy _].
  apply Forall_forall. intros o' Hin. apply not_true_is_false. intros Ho'.
  apply strict_eq_eq in Ho'. apply elem_of_app in Hin as [Hin|Hin].
  - apply (Hx (prop o' "id")).
    + apply list_elem_of_fmap. by exists o'.
    + rewrite Ho', <- Ho. constructor.
  - apply Hy. rewrite Ho, <- Ho'. apply list_elem_of_fmap. by exists o'.
Qed.

(** X3. When some List has the given id, [updateList] resolves with that
    List, the only one with the id; its [title] is the new one and its
    other properties are what they were; every other cell of the heap, both
    arrays and both counters are as they were. *)
Theorem update_list (ops : list op) (id title : value) :
  let st := run ops init in
  no_match id (lists st) = false →
  ∃ l o pre post st',
    updateList id title st = (Resolve (VRef l), st') ∧
    list_refs st = pre ++ VRef l :: post ∧
    heap st !! l = Some (CObj o) ∧ has_id id o = true ∧
    Forall (λ v, has_id id (obj_of (heap st) v) = false) (pre ++ post) ∧
    obj_of (heap st') (VRef l) = <["title" := title]> o ∧
    (∀ l', l' ≠ l → heap st' !! l' = heap st !! l') ∧
    list_refs st' = list_refs st ∧ item_refs st' = item_refs st ∧
    nextListId st' = nextListId st ∧ nextItemId st' = nextItemId st.
Proof.
  intros st Hsome. assert (Hwf : store_wf st) by apply run_wf, init_wf.
  destruct (updateList_effect id title st Hwf)
    as [[Hno _]|(l & o & pre & post & Hl & Hrefs & Hp & Hpre & E)].
  { apply no_match_true in Hno. congruence. }
  destruct (wf_set_obj st l o (<["title" := title]> o) Hwf Hl) as (HL & HI & _).
  eexists l, o, pre, post, _. split; [exact E|]. split_and!; try done.
  - destruct (run_list_ids_ok ops) as [_ Hnd]. fold st in Hnd. simpl in Hnd.
    unfold lists in Hnd. rewrite Hrefs, fmap_app, fmap_cons in Hnd.
    assert (Ho : obj_of (heap st) (VRef l) = o) by (simpl; unfold obj_at; by rewrite Hl).
    rewrite Ho in Hnd. pose proof (unique_match id _ _ o Hnd Hp) as Hu.
    rewrite <- fmap_app in Hu. by apply Forall_fmap in Hu.
  - simpl. apply obj_at_insert.
  - intros l' Hne. simpl. by rewrite lookup_insert_ne.
Qed.

Lemma update_list_witness :
  let st := run groceries init in
  no_match (VNum 1) (lists st) = false ∧
  ∃ l st', updateList (VNum 1) (VStr "Shopping") st = (Resolve (VRef l), st') ∧
           prop (obj_of (heap st') (VRef l)) "title" = VStr "Shopping".
Proof.
  cbv zeta.
  assert (H : no_match (VNum 1) (lists (run groceries init)) = false)
    by (vm_compute; reflexivity).
  split; [exact H|].
  destruct (update_list groceries (VNum 1) (VStr "Shopping") H)
    as (l & o & pre & post & st' & E & _ & _ & _ & _ & Ho & _).
  exists l, st'. split; [exact E|]. rewrite Ho. apply prop_insert.
Defined.

Lemma own_writes_id (updates : gmap string value) :
  updates !! "__proto__" = None → own_writes updates = updates.
Proof. apply delete_id. Qed.

Lemma own_writes_union (u1 u2 : gmap string value) :
  own_writes (u1 ∪ u2) = own_writes u1 ∪ own_writes u2.
Proof. apply delete_union. Qed.

(** X4. When some Item has the given id, [updateItem] with updates that are
    fields (no [__proto__] among them) resolves with the first such Item;
    every property named in the updates has the value given there, every
    other property is what it was, and every other cell of the heap, both
    arrays and both counters are as they were. *)
Theorem update_item (ops : list op) (id : value) (updates : gmap string value) :
  let st := run ops init in
  updates !! "__proto__" = None →
  no_match id (items st) = false →
  ∃ l o pre post st',
    updateItem id updates st = (Resolve (VRef l), st') ∧
    item_refs st = pre ++ VRef l :: post ∧
    heap st !! l = Some (CObj o) ∧ has_id id o = true ∧
    Forall (λ v, has_id id (obj_of (heap st) v) = false) pre ∧
    (let o' := obj_of (heap st') (VRef l) in
     (∀ k v, updates !! k = Some v → o' !! k = Some v) ∧
     (∀ k, updates !! k = None → o' !! k = o !! k)) ∧
    (∀ l', l' ≠ l → heap st' !! l' = heap st !! l') ∧
    list_refs st' = list_refs st ∧ item_refs st' = item_refs st ∧
    nextListId st' = nextListId st ∧ nextItemId st' = nextItemId st.
Proof.
  intros st Hfields Hsome. assert (Hwf : store_wf st) by apply run_wf, init_wf.
  destruct (updateItem_effect id updates st Hwf)
    as [[Hno _]|(l & o & pre & post & Hl & Hrefs & Hp & Hpre & E)].
  { apply no_match_true in Hno. congruence. }
  rewrite own_writes_id in E by done.
  destruct (wf_set_obj st l o (updates ∪ o) Hwf Hl) as (HL & HI & _).
  eexists l, o, pre, post, _. split; [exact E|]. split_and!; try done.
  - cbv zeta. simpl. rewrite obj_at_insert. split.
    + intros k v Hk. by apply lookup_union_Some_l.
    + intros k Hk. by apply lookup_union_r.
  - intros l' Hne. simpl. by rewrite lookup_insert_ne.
Qed.

Lemma update_item_witness :
  let st := run groceries init in
  ({[ "priority" := VStr "P1" ]} : gmap string value) !! "__proto__" = None ∧
  no_match (VNum 1) (items st) = false ∧
  ∃ l st', updateItem (VNum 1) {[ "priority" := VStr "P1" ]} st = (Resolve (VRef l), st') ∧
           obj_of (heap st') (VRef l) !! "priority" = Some (VStr "P1").
Proof.
  cbv zeta.
  assert (H : no_match (VNum 1) (items (run groceries init)) = false)
    by (vm_compute; reflexivity).
  assert (H0 : ({[ "priority" := VStr "P1" ]} : gmap string value) !! "__proto__" = None)
    by reflexivity.
  split; [exact H0|]. split; [exact H|].
  destruct (update_item groceries (VNum 1) {[ "priority" := VStr "P1" ]} H0 H)
    as (l & o & pre & post & st' & E & _ & _ & _ & _ & (Ho & _) & _).
  exists l, st'. split; [exact E|]. apply Ho. reflexivity.
Defined.

(** ** How updates compose *)

Lemma find_ext_elem {A} (f g : A → bool) (xs : list A) :
  (∀ x, x ∈ xs → f x = g x) → List.find f xs = List.find g xs.
Proof.
  induction xs as [|x xs IH]; intros H; [done|]. simpl.
  rewrite (H x) by constructor. rewrite IH; [done|].
  intros y Hy. apply H. by constructor.
Qed.

(** Rewriting an object without touching its id leaves [find] by id on the
    Items where it was. *)
Lemma find_item_set_obj id st l o o' :
  store_wf st → heap st !! l = Some (CObj o) → prop o' "id" = prop o "id" →
  find_item id (set_heap (<[l := CObj o']> (heap st)) st) = find_item id st.
Proof.
  intros Hwf Hl Hid. destruct (wf_set_obj st l o o' Hwf Hl) as (_ & HI & _).
  unfold find_item. rewrite HI. f_equal. apply find_ext_elem. intros v Hv.
  f_equal. unfold field. destruct (decide (v = VRef l)) as [->|Hne].
  - simpl. rewrite obj_at_insert. unfold obj_at. by rewrite Hl.
  - simpl. by rewrite obj_of_insert_ne.
Qed.

Lemma set_heap_same st : set_heap (heap st) st = st.
Proof. by destruct st. Qed.

Lemma set_heap_twice h h' st : set_heap h (set_heap h' st) = set_heap h st.
Proof. done. Qed.

(** X5. Two [updateItem] calls in a row on the same id, with updates that
    are fields (no [__proto__] among them) and the first of which does not
    write [id], act as one call with the merged updates (the later update
    wins where both name a property); and [updateItem] with no updates
    leaves the store as it is. *)
Theorem update_item_compose (ops : list op) (id : value) (u1 u2 : gmap string value) :
  let st := run ops init in
  (u1 !! "__proto__" = None → u2 !! "__proto__" = None → u1 !! "id" = None →
   updateItem id u2 (snd (updateItem id u1 st)) = updateItem id (u2 ∪ u1) st) ∧
  snd (updateItem id ∅ st) = st.
Proof.
  intros st. assert (Hwf : store_wf st) by apply run_wf, init_wf. split.
  - intros Hp1 Hp2 Hid. rewrite !updateItem_eq. cbv zeta.
    destruct (find_item_spec id st Hwf)
      as [[Hf _]|(l & o & pre & post & Hf & Hl & _)].
    + rewrite Hf. cbn [truthy snd]. by rewrite Hf.
    + assert (Ho : obj_at (heap st) l = o) by (unfold obj_at; by rewrite Hl).
      rewrite Hf. cbn [truthy snd object_assign modify]. rewrite !Ho.
      rewrite (find_item_set_obj id st l o (own_writes u1 ∪ o) Hwf Hl)
        by by apply prop_union_None.
      rewrite Hf. cbn [truthy snd object_assign modify heap set_heap].
      rewrite obj_at_insert, insert_insert_eq.
      by rewrite own_writes_union, (assoc_L (∪)).
  - rewrite updateItem_eq. cbv zeta.
    destruct (find_item_spec id st Hwf)
      as [[Hf _]|(l & o & pre & post & Hf & Hl & _)]; rewrite Hf; [done|].
    cbn [truthy snd object_assign modify]. unfold obj_at. rewrite Hl.
    unfold own_writes. rewrite delete_empty.
    rewrite (left_id_L ∅ (∪)), insert_id by done. apply set_heap_same.
Qed.

Lemma update_item_compose_witness :
  let u1 : gmap string value := {[ "title" := VStr "Oat milk" ]} in
  let u2 : gmap string value := {[ "priority" := VStr "P1" ]} in
  let st := run groceries init in
  u1 !! "__proto__" = None ∧ u2 !! "__proto__" = None ∧ u1 !! "id" = None ∧
  updateItem (VNum 1) u2 (snd (updateItem (VNum 1) u1 st)) = updateItem (VNum 1) (u2 ∪ u1) st.
Proof.
  cbv zeta.
  assert (H : ({[ "title" := VStr "Oat milk" ]} : gmap string value) !! "id" = None)
    by reflexivity.
  assert (H1 : ({[ "title" := VStr "Oat milk" ]} : gmap string value) !! "__proto__" = None)
    by reflexivity.
  assert (H2 : ({[ "priority" := VStr "P1" ]} : gmap string value) !! "__proto__" = None)
    by reflexivity.
  split_and!; [exact H1|exact H2|exact H|].
  exact (proj1 (update_item_compose groceries (VNum 1) _ _) H1 H2 H).
Defined.

(** ** Toggling twice *)

Lemma step_completed_bool o s :
  keeps_completed o = true → completed_bool (s_items s) → completed_bool (s_items (step o s)).
Proof.
  unfold completed_bool. intros Hk Hb. destruct o; simpl in *; try done.
  - by apply Forall_filter with (f := λ o, negb (in_list id o)).
  - apply Forall_app. split; [done|]. repeat constructor. by exists false.
  - apply Forall_update_first; [|done]. intros o [b Ho].
    destruct (updates !! "completed") as [v|] eqn:Hu.
    + destruct v; try done. eexists. apply lookup_union_Some_l.
      by rewrite own_writes_lookup.
    + exists b. rewrite lookup_union_r; [done|]. by rewrite own_writes_lookup.
  - by apply Forall_filter with (f := λ o, negb (has_id id o)).
  - apply Forall_update_first; [|done]. intros o _. eexists.
    unfold js_not. apply lookup_insert_eq.
Qed.

Lemma run_completed_bool ops :
  forallb keeps_completed ops = true → completed_bool (items (run ops init)).
Proof.
  change (items (run ops init)) with (s_items (observe (run ops init))).
  rewrite run_observe by apply init_wf.
  assert (H0 : completed_bool (s_items (observe init))) by constructor.
  revert H0. generalize (observe init). induction ops as [|o ops IH]; intros s Hs Hk; [done|].
  simpl in *. apply andb_true_iff in Hk as [Ho Hk]. by apply IH; [apply step_completed_bool|].
Qed.

(** X6. In a run where no [updateItem] has written a [completed] that is
    not a boolean, toggling the same id twice in a row resolves (or rejects)
    the second time as the first time and leaves the store exactly as it
    was before the first toggle. *)
Theorem toggle_twice_restores (ops : list op) (id : value) :
  forallb keeps_completed ops = true →
  let st := run ops init in
  toggleItem id (snd (toggleItem id st)) = (fst (toggleItem id st), st).
Proof.
  intros Hk st. assert (Hwf : store_wf st) by apply run_wf, init_wf.
  rewrite !toggleItem_eq. cbv zeta.
  destruct (find_item_spec id st Hwf)
    as [[Hf _]|(l & o & pre & post & Hf & Hl & Hrefs & _)].
  - rewrite Hf. cbn [truthy snd fst]. by rewrite Hf.
  - assert (Hb : ∃ b, o !! "completed" = Some (VBool b)).
    { pose proof (run_completed_bool ops Hk) as Hc. fold st in Hc.
      unfold completed_bool in Hc. rewrite Forall_forall in Hc. apply Hc.
      unfold items. apply list_elem_of_fmap. exists (VRef l). split.
      - simpl. unfold obj_at. by rewrite Hl.
      - rewrite Hrefs. apply elem_of_app. right. constructor. }
    destruct Hb as [b Hb].
    assert (Hfield : field (heap st) (VRef l) "completed" = VBool b).
    { unfold field, prop. simpl. unfold obj_at. by rewrite Hl, Hb. }
    assert (Ho : obj_at (heap st) l = o) by (unfold obj_at; by rewrite Hl).
    rewrite Hf. cbn [truthy snd fst set_field modify]. rewrite Hfield, !Ho.
    rewrite (find_item_set_obj id st l o _ Hwf Hl) by by apply prop_insert_ne.
    rewrite Hf. cbn [truthy snd fst set_field modify heap]. f_equal.
    rewrite set_heap_twice.
    unfold field. cbn [obj_of heap set_heap].
    rewrite obj_at_insert, prop_insert, insert_insert_eq.
    unfold js_not. cbn [truthy]. rewrite negb_involutive, insert_insert_eq.
    rewrite (insert_id o) by done. rewrite insert_id by done. apply set_heap_same.
Qed.

Lemma toggle_twice_restores_witness :
  forallb keeps_completed groceries = true ∧
  toggleItem (VNum 1) (snd (toggleItem (VNum 1) (run groceries init)))
  = (fst (toggleItem (VNum 1) (run groceries init)), run groceries init).
Proof.
  assert (H : forallb keeps_completed groceries = true) by reflexivity.
  split; [exact H|]. exact (toggle_twice_restores groceries (VNum 1) H).
Defined.

(** ** Ids count up from 1 *)

Lemma fmap_seq_shift (f : Z → value) (m : Z) (n : nat) :
  (λ k : nat, f (m + Z.of_nat k)) <$> seq 0 (S n)
  = f m :: ((λ k : nat, f (m + 1 + Z.of_nat k)) <$> seq 0 n).
Proof.
  cbn [seq fmap list_fmap]. f_equal; [f_equal; lia|].
  rewrite <- fmap_S_seq, <- list_fmap_compose. apply list_fmap_ext.
  intros i k _. simpl. f_equal. lia.
Qed.

Lemma list_ids_issued_seq ops st :
  store_wf st →
  let n := length (filter (λ o, is_createList o) ops) in
  list_ids_issued ops st = (λ k : nat, VNum (nextListId st + Z.of_nat k)) <$> seq 0 n ∧
  nextListId (run ops st) = nextListId st + Z.of_nat n.
Proof.
  revert st. induction ops as [|o ops IH]; intros st Hwf; cbv zeta.
  { simpl. split; [done|lia]. }
  destruct (IH _ (call_wf o st Hwf)) as [Hi Hn]. cbv zeta in Hi, Hn.
  destruct (call_counters o st Hwf) as [Hc _].
  cbn [list_ids_issued run]. rewrite Hi, Hn, Hc, filter_cons.
  destruct o; cbn [is_createList]; (destruct (decide _) as [Ht|Hf]; [|try done]);
    try (exfalso; exact Ht); cbn [app length]; try (split; [done|lia]).
  rewrite returned_id_createList by done. rewrite fmap_seq_shift.
  split; [done|lia].
Qed.

Lemma item_ids_issued_seq ops st :
  store_wf st →
  let n := length (filter (λ o, is_createItem o) ops) in
  item_ids_issued ops st = (λ k : nat, VNum (nextItemId st + Z.of_nat k)) <$> seq 0 n ∧
  nextItemId (run ops st) = nextItemId st + Z.of_nat n.
Proof.
  revert st. induction ops as [|o ops IH]; intros st Hwf; cbv zeta.
  { simpl. split; [done|lia]. }
  destruct (IH _ (call_wf o st Hwf)) as [Hi Hn]. cbv zeta in Hi, Hn.
  destruct (call_counters o st Hwf) as [_ Hc].
  cbn [item_ids_issued run]. rewrite Hi, Hn, Hc, filter_cons.
  destruct o; cbn [is_createItem]; (destruct (decide _) as [Ht|Hf]; [|try done]);
    try (exfalso; exact Ht); cbn [app length]; try (split; [done|lia]).
  rewrite returned_id_createItem by done. rewrite fmap_seq_shift.
  split; [done|lia].
Qed.

(** X7. The ids are handed out in sequence from 1: the k-th [createList]
    of a run resolves with id k and the k-th [createItem] with id k, whatever
    else is called in between, and each counter is one more than the number
    of creates of its kind so far. *)
Theorem ids_count_up (ops : list op) :
  let nl := length (filter (λ o, is_createList o) ops) in
  let ni := length (filter (λ o, is_createItem o) ops) in
  list_ids_issued ops init = (λ k : nat, VNum (1 + Z.of_nat k)) <$> seq 0 nl ∧
  item_ids_issued ops init = (λ k : nat, VNum (1 + Z.of_nat k)) <$> seq 0 ni ∧
  nextListId (run ops init) = 1 + Z.of_nat nl ∧
  nextItemId (run ops init) = 1 + Z.of_nat ni.
Proof.
  cbv zeta. destruct (list_ids_issued_seq ops init init_wf) as [H1 H2].
  destruct (item_ids_issued_seq ops init init_wf) as [H3 H4]. done.
Qed.

(** ** Create, then read *)

Lemma resolved_getAllLists st :
  store_wf st → resolved_array (getAllLists st) = list_refs st.
Proof.
  intros Hwf. destruct (getAllLists_effect st Hwf) as (a & st' & -> & _ & Hh & _).
  simpl. by rewrite Hh, arr_at_insert.
Qed.

Lemma resolved_getItemsByList listId st :
  store_wf st →
  resolved_array (getItemsByList listId st)
  = filter (λ i, in_list listId (obj_of (heap st) i)) (item_refs st).
Proof.
  intros Hwf. destruct (getItemsByList_effect listId st Hwf) as (a & st' & -> & _ & Hh & _).
  simpl. by rewrite Hh, arr_at_insert.
Qed.

(** X8. Right after [createItem], [getItemsByList] resolves with what it
    would have resolved with before, followed by the new Item when its
    [listId] is the one asked for under [===] (so never for [NaN]), and with
    exactly what it would have resolved with before otherwise.  Right
    after [createList], [getAllLists] resolves with the previous Lists
    followed by the new one. *)
Theorem create_then_read (ops : list op) (listId title priority : value) (now : string) :
  let st := run ops init in
  (∃ l st1,
     createItem listId title priority now st = (Resolve (VRef l), st1) ∧
     ∀ listId',
       resolved_array (getItemsByList listId' st1)
       = resolved_array (getItemsByList listId' st)
         ++ (if strict_eq listId listId' then [VRef l] else [])) ∧
  (∃ l st1,
     createList title now st = (Resolve (VRef l), st1) ∧
     resolved_array (getAllLists st1) = resolved_array (getAllLists st) ++ [VRef l]).
Proof.
  intros st. assert (Hwf : store_wf st) by apply run_wf, init_wf. split.
  - destruct (createItem_effect listId title priority now st Hwf)
      as (l & st1 & E & _ & _ & _ & _ & _ & _ & _ & HI & Hnew & Hkeep & Hwf1).
    exists l, st1. split; [done|]. intros listId'.
    rewrite !resolved_getItemsByList by done. rewrite HI, filter_app. f_equal.
    + apply (filter_ext_elem (λ i, in_list listId' (obj_of (heap st1) i))
               (λ i, in_list listId' (obj_of (heap st) i))).
      intros v Hv. rewrite Hkeep; [done|].
      pose proof (wf_item_refs st Hwf) as HF. rewrite Forall_forall in HF. by apply HF.
    + rewrite filter_cons, filter_nil, Hnew. unfold in_list.
      destruct (item_literal_props (nextItemId st) listId title priority now)
        as (_ & -> & _).
      by destruct (strict_eq listId listId').
  - destruct (createList_effect title now st Hwf)
      as (l & st1 & E & _ & _ & _ & _ & _ & _ & HL & _ & _ & _ & Hwf1).
    exists l, st1. split; [done|]. by rewrite !resolved_getAllLists, HL.
Qed.

(** The same with the [NaN] case made explicit: an Item created under
    [NaN] is stored but no [getItemsByList] ever returns it. *)
Example create_under_nan :
  let st := run [CreateItem VNaN (VStr "Milk") (VStr "P2") "2025-01-01T00:00:00.000Z"] init in
  length (items st) = 1%nat ∧ resolved_array (getItemsByList VNaN st) = [].
Proof. cbv zeta. split; vm_compute; reflexivity. Qed.

(** ** Create, then delete *)

(** X9. In a run where no [updateItem] has written an id, deleting the
    Item that [createItem] has just resolved with, by its id, gives back
    both collections as they were before the create: the same elements in
    the same order, with the properties they had.  Only [nextItemId] has
    moved. *)
Theorem create_item_then_delete (ops : list op) (listId title priority : value)
    (now : string) :
  forallb keeps_ids ops = true →
  let st := run ops init in
  ∃ l st1,
    createItem listId title priority now st = (Resolve (VRef l), st1) ∧
    let st2 := snd (deleteItem (field (heap st1) (VRef l) "id") st1) in
    list_refs st2 = list_refs st ∧ item_refs st2 = item_refs st ∧
    lists st2 = lists st ∧ items st2 = items st ∧
    nextListId st2 = nextListId st ∧ nextItemId st2 = nextItemId st + 1.
Proof.
  intros Hk st. assert (Hwf : store_wf st) by apply run_wf, init_wf.
  destruct (createItem_effect listId title priority now st Hwf)
    as (l & st1 & E & _ & _ & _ & _ & Hn1 & Hn2 & HL & HI & Hnew & Hkeep & Hwf1).
  exists l, st1. split; [done|]. cbv zeta.
  unfold field. rewrite Hnew, item_literal_id.
  destruct (deleteItem_effect (VNum (nextItemId st)) st1 Hwf1)
    as (a & st2 & E2 & _ & _ & Hsub & HL2 & HI2 & Hn3 & Hn4 & Hwf2).
  rewrite E2. cbn [snd].
  assert (HIr : item_refs st2 = item_refs st).
  { assert (Hself : strict_neq (field (heap st1) (VRef l) "id") (VNum (nextItemId st))
                     = false).
    { unfold strict_neq, field. by rewrite Hnew, item_literal_id, strict_eq_num. }
    rewrite HI2, HI, filter_app, filter_cons, filter_nil.
    destruct (decide _) as [Ht|_]; [simpl in Ht; by rewrite Hself in Ht|].
    rewrite app_nil_r.
    apply (filter_all (λ i, strict_neq (field (heap st1) i "id") (VNum (nextItemId st)))).
    destruct (run_item_ids_ok ops Hk) as [Hb _]. fold st in Hb.
    unfold ids_below in Hb. cbn [observe s_items s_nextItemId] in Hb.
    pose proof (wf_item_refs st Hwf) as HF.
    apply Forall_forall. intros v Hv.
    rewrite Forall_forall in Hb. rewrite Forall_forall in HF.
    destruct (Hb (obj_of (heap st) v)) as (k & Hid & Hlt).
    { unfold items. apply list_elem_of_fmap. eauto. }
    unfold strict_neq, field. rewrite Hkeep by by apply HF. rewrite Hid. simpl.
    apply negb_true_iff, bool_decide_eq_false. lia. }
  assert (HLr : list_refs st2 = list_refs st) by by rewrite HL2, HL.
  split_and!; try done; try lia.
  - unfold lists. rewrite HLr.
    rewrite (fmap_obj_of_weaken (heap st1) (heap st2)); [|done|].
    + apply fmap_obj_of_keep; [done|apply Hwf].
    + rewrite <- HL. apply Hwf1.
  - unfold items. rewrite HIr.
    rewrite (fmap_obj_of_weaken (heap st1) (heap st2)); [|done|].
    + apply fmap_obj_of_keep; [done|apply Hwf].
    + pose proof (wf_item_refs st1 Hwf1) as HF. rewrite HI in HF.
      by apply Forall_app in HF as [HF _].
Qed.

Lemma create_item_then_delete_witness :
  forallb keeps_ids scenario = true ∧
  ∃ l st1,
    createItem (VNum 2) (VStr "Laundry") (VStr "P2") "2025-01-02T00:00:00.000Z"
      (run scenario init) = (Resolve (VRef l), st1) ∧
    items (snd (deleteItem (field (heap st1) (VRef l) "id") st1)) = items (run scenario init).
Proof.
  assert (Hk : forallb keeps_ids scenario = true) by reflexivity.
  split; [exact Hk|].
  destruct (create_item_then_delete scenario (VNum 2) (VStr "Laundry") (VStr "P2")
              "2025-01-02T00:00:00.000Z" Hk) as (l & st1 & E & H).
  exists l, st1. split; [exact E|]. apply H.
Defined.

(** ** Deletes in either order *)

Lemma delete_refs o st :
  store_wf st → is_delete o = true →
  let st' := snd (call o st) in
  list_refs st' = filter (λ v, keeps_list o (obj_of (heap st) v)) (list_refs st) ∧
  item_refs st' = filter (λ v, keeps_item o (obj_of (heap st) v)) (item_refs st) ∧
  heap st ⊆ heap st' ∧ store_wf st'.
Proof.
  intros Hwf Hd. destruct o; try done; cbv zeta; unfold call.
  - destruct (deleteList_effect id st Hwf) as (a & st' & -> & _ & _ & Hsub & HL & HI & _ & _ & Hwf').
    done.
  - destruct (deleteItem_effect id st Hwf) as (a & st' & -> & _ & _ & Hsub & HL & HI & _ & _ & Hwf').
    cbn [snd]. split_and!; try done. rewrite HL. symmetry.
    by apply (filter_all (λ _, true)), Forall_true.
Qed.

Lemma delete_two_refs o1 o2 st :
  store_wf st → is_delete o1 = true → is_delete o2 = true →
  let st' := run [o1; o2] st in
  list_refs st' = filter (λ v, keeps_list o2 (obj_of (heap st) v) ∧
                               keeps_list o1 (obj_of (heap st) v)) (list_refs st) ∧
  item_refs st' = filter (λ v, keeps_item o2 (obj_of (heap st) v) ∧
                               keeps_item o1 (obj_of (heap st) v)) (item_refs st) ∧
  heap st ⊆ heap st'.
Proof.
  intros Hwf H1 H2. cbv zeta. cbn [run].
  destruct (delete_refs o1 st Hwf H1) as (HL1 & HI1 & Hsub1 & Hwf1).
  destruct (delete_refs o2 _ Hwf1 H2) as (HL2 & HI2 & Hsub2 & _).
  rewrite HL2, HI2, HL1, HI1. split_and!.
  - rewrite <- list_filter_filter. f_equal.
    apply (filter_ext_elem (λ v, keeps_list o2 (obj_of (heap (snd (call o1 st))) v))
             (λ v, keeps_list o2 (obj_of (heap st) v))).
    intros v [_ Hv]%list_elem_of_filter. f_equal. apply obj_of_weaken; [done|].
    pose proof (wf_list_refs st Hwf) as HF. rewrite Forall_forall in HF. by apply HF.
  - rewrite <- list_filter_filter. f_equal.
    apply (filter_ext_elem (λ v, keeps_item o2 (obj_of (heap (snd (call o1 st))) v))
             (λ v, keeps_item o2 (obj_of (heap st) v))).
    intros v [_ Hv]%list_elem_of_filter. f_equal. apply obj_of_weaken; [done|].
    pose proof (wf_item_refs st Hwf) as HF. rewrite Forall_forall in HF. by apply HF.
  - by etrans.
Qed.

(** X10. Two deletes ([deleteList] or [deleteItem], in any combination)
    leave the same store whichever runs first: the same elements in the
    same order in both arrays, with the same properties, and the same
    counters. *)
Theorem deletes_commute (ops : list op) (o1 o2 : op) :
  is_delete o1 = true → is_delete o2 = true →
  let st := run ops init in
  list_refs (run [o1; o2] st) = list_refs (run [o2; o1] st) ∧
  item_refs (run [o1; o2] st) = item_refs (run [o2; o1] st) ∧
  observe (run [o1; o2] st) = observe (run [o2; o1] st).
Proof.
  intros H1 H2 st. assert (Hwf : store_wf st) by apply run_wf, init_wf.
  destruct (delete_two_refs o1 o2 st Hwf H1 H2) as (HL & HI & Hsub).
  destruct (delete_two_refs o2 o1 st Hwf H2 H1) as (HL' & HI' & Hsub').
  cbv zeta in *.
  assert (HLe : list_refs (run [o1; o2] st) = list_refs (run [o2; o1] st)).
  { rewrite HL, HL'. apply list_filter_iff. tauto. }
  assert (HIe : item_refs (run [o1; o2] st) = item_refs (run [o2; o1] st)).
  { rewrite HI, HI'. apply list_filter_iff. tauto. }
  split_and!; try done.
  rewrite !run_observe by done. cbn [foldl].
  destruct o1, o2; try done; simpl; f_equal; rewrite !list_filter_filter;
    apply list_filter_iff; tauto.
Qed.

Lemma deletes_commute_witness :
  is_delete (DeleteList (VNum 1)) = true ∧ is_delete (DeleteItem (VNum 1)) = true ∧
  observe (run [DeleteList (VNum 1); DeleteItem (VNum 1)] (run groceries init))
  = observe (run [DeleteItem (VNum 1); DeleteList (VNum 1)] (run groceries init)).
Proof.
  assert (H1 : is_delete (DeleteList (VNum 1)) = true) by reflexivity.
  assert (H2 : is_delete (DeleteItem (VNum 1)) = true) by reflexivity.
  split; [exact H1|]. split; [exact H2|].
  exact (proj2 (proj2
    (deletes_commute groceries (DeleteList (VNum 1)) (DeleteItem (VNum 1)) H1 H2))).
Defined.

(** ** Ids are compared without conversion *)

Lemma strict_eq_num_other n id : (∀ m, id ≠ VNum m) → strict_eq (VNum n) id = false.
Proof. intros H. destruct id; try done. by destruct (H n0). Qed.

Lemma no_match_ids_below n id xs :
  (∀ m, id ≠ VNum m) → ids_below n xs → Forall (λ o, has_id id o = false) xs.
Proof.
  intros Hid Hb. eapply Forall_impl; [exact Hb|]. intros o (k & Hk & _).
  unfold has_id. rewrite Hk. by apply strict_eq_num_other.
Qed.

(** X11. An id that is not a number (the string ["1"], say) matches no
    List, whatever ran before: [updateList] rejects and [deleteList] removes
    no List.  In a run where no [updateItem] has written an id it matches no
    Item either: [updateItem] and [toggleItem] reject and [deleteItem]
    removes nothing. *)
Theorem ids_compared_strictly (ops : list op) (id : value) :
  (∀ n, id ≠ VNum n) →
  let st := run ops init in
  (∀ title, updateList id title st = (Reject (Error "List not found"), st)) ∧
  list_refs (snd (deleteList id st)) = list_refs st ∧
  (forallb keeps_ids ops = true →
   (∀ updates, updateItem id updates st = (Reject (Error "Item not found"), st)) ∧
   toggleItem id st = (Reject (Error "Item not found"), st) ∧
   item_refs (snd (deleteItem id st)) = item_refs st).
Proof.
  intros Hid st. assert (Hwf : store_wf st) by apply run_wf, init_wf.
  destruct (run_list_ids_ok ops) as [HbL _]. fold st in HbL.
  pose proof (no_match_ids_below _ id _ Hid HbL) as HnoL. cbn [observe s_lists] in HnoL.
  split_and!.
  - intros title. destruct (updateList_effect id title st Hwf)
      as [[_ E]|(l & o & pre & post & Hl & Hrefs & Hp & _)]; [done|].
    exfalso. rewrite Forall_forall in HnoL. specialize (HnoL o).
    rewrite Hp in HnoL. apply diff_true_false, HnoL.
    unfold lists. rewrite Hrefs. apply list_elem_of_fmap. exists (VRef l). split.
    + simpl. unfold obj_at. by rewrite Hl.
    + apply elem_of_app. right. constructor.
  - destruct (deleteList_effect id st Hwf) as (a & st' & -> & _ & _ & _ & HL & _).
    cbn [snd]. rewrite HL.
    apply (filter_all (λ l, strict_neq (field (heap st) l "id") id)).
    unfold lists in HnoL. apply Forall_fmap in HnoL.
    eapply Forall_impl; [exact HnoL|]. intros v Hv. simpl in Hv.
    unfold strict_neq, field. unfold has_id in Hv. by rewrite Hv.
  - intros Hk. destruct (run_item_ids_ok ops Hk) as [HbI _]. fold st in HbI.
    pose proof (no_match_ids_below _ id _ Hid HbI) as HnoI. cbn [observe s_items] in HnoI.
    assert (Hnone : ∀ l o pre post, heap st !! l = Some (CObj o) →
              item_refs st = pre ++ VRef l :: post → has_id id o = true → False).
    { intros l o pre post Hl Hrefs Hp. rewrite Forall_forall in HnoI.
      specialize (HnoI o). rewrite Hp in HnoI. apply diff_true_false, HnoI.
      unfold items. rewrite Hrefs. apply list_elem_of_fmap. exists (VRef l). split.
      - simpl. unfold obj_at. by rewrite Hl.
      - apply elem_of_app. right. constructor. }
    split_and!.
    + intros updates. destruct (updateItem_effect id updates st Hwf)
        as [[_ E]|(l & o & pre & post & Hl & Hrefs & Hp & _)]; [done|].
      destruct (Hnone l o pre post Hl Hrefs Hp).
    + destruct (toggleItem_effect id st Hwf)
        as [[_ E]|(l & o & pre & post & Hl & Hrefs & Hp & _)]; [done|].
      destruct (Hnone l o pre post Hl Hrefs Hp).
    + destruct (deleteItem_effect id st Hwf) as (a & st' & -> & _ & _ & _ & _ & HI & _).
      cbn [snd]. rewrite HI.
      apply (filter_all (λ l, strict_neq (field (heap st) l "id") id)).
      unfold items in HnoI. apply Forall_fmap in HnoI.
      eapply Forall_impl; [exact HnoI|]. intros v Hv. simpl in Hv.
      unfold strict_neq, field. unfold has_id in Hv. by rewrite Hv.
Qed.

Lemma ids_compared_strictly_witness :
  (∀ n, VStr "1" ≠ VNum n) ∧
  updateList (VStr "1") (VStr "Shopping") (run groceries init)
  = (Reject (Error "List not found"), run groceries init).
Proof.
  assert (H : ∀ n, VStr "1" ≠ VNum n) by (intros n; discriminate).
  split; [exact H|]. exact (proj1 (ids_compared_strictly groceries (VStr "1") H) _).
Defined.

(** ** Items in creation order *)






(** ** What a create resolves with *)

(** X13. The object [createItem] resolves with is the object the store
    keeps, not a copy of it: whatever the caller writes to it is what the
    item collection holds in its last place from then on, the other Items
    and the Lists being as they were.  The same holds of [createList]. *)
Theorem create_resolves_with_stored_object (ops : list op)
    (listId title priority : value) (now : string) (written : gmap string value) :
  let st := run ops init in
  (∃ l st1,
     createItem listId title priority now st = (Resolve (VRef l), st1) ∧
     items (caller_writes l (CObj written) st1) = items st ++ [written] ∧
     lists (caller_writes l (CObj written) st1) = lists st) ∧
  (∃ l st1,
     createList title now st = (Resolve (VRef l), st1) ∧
     lists (caller_writes l (CObj written) st1) = lists st ++ [written] ∧
     items (caller_writes l (CObj written) st1) = items st).
Proof.
  intros st. assert (Hwf : store_wf st) by apply run_wf, init_wf.
  pose proof (wf_list_refs st Hwf) as HFL. pose proof (wf_item_refs st Hwf) as HFI.
  assert (Hfresh : ∀ l xs, heap st !! l = None → Forall (is_obj_ref (heap st)) xs →
                           VRef l ∉ xs).
  { intros l xs Hl Hxs Hin. rewrite Forall_forall in Hxs.
    destruct (Hxs _ Hin) as (l' & o & [= <-] & Ho). congruence. }
  split.
  - destruct (createItem_effect listId title priority now st Hwf)
      as (l & st1 & E & Hl & _ & Htl & Hti & _ & _ & HL & HI & _ & Hkeep & Hwf1).
    assert (l ≠ todoListsData st1 ∧ l ≠ todoItemsData st1) as [Hne1 Hne2].
    { destruct Hwf as [[xs Hxs] [ys Hys] _ _ _ _]. rewrite Htl, Hti.
      split; intros ->; congruence. }
    exists l, st1. split; [done|]. unfold items, lists.
    rewrite (list_refs_caller_writes l), (item_refs_caller_writes l) by done.
    rewrite HL, HI, fmap_app. cbn [heap caller_writes set_heap].
    rewrite (fmap_obj_of_insert _ l _ (item_refs st)),
      (fmap_obj_of_insert _ l _ (list_refs st)) by eauto.
    cbn [fmap list_fmap obj_of]. rewrite obj_at_insert.
    by rewrite !(fmap_obj_of_keep (heap st) (heap st1)).
  - destruct (createList_effect title now st Hwf)
      as (l & st1 & E & Hl & _ & Htl & Hti & _ & _ & HL & HI & _ & Hkeep & Hwf1).
    assert (l ≠ todoListsData st1 ∧ l ≠ todoItemsData st1) as [Hne1 Hne2].
    { destruct Hwf as [[xs Hxs] [ys Hys] _ _ _ _]. rewrite Htl, Hti.
      split; intros ->; congruence. }
    exists l, st1. split; [done|]. unfold items, lists.
    rewrite (list_refs_caller_writes l), (item_refs_caller_writes l) by done.
    rewrite HL, HI, fmap_app. cbn [heap caller_writes set_heap].
    rewrite (fmap_obj_of_insert _ l _ (item_refs st)),
      (fmap_obj_of_insert _ l _ (list_refs st)) by eauto.
    cbn [fmap list_fmap obj_of]. rewrite obj_at_insert.
    by rewrite !(fmap_obj_of_keep (heap st) (heap st1)).
Qed.

(** ** Create List, then delete it *)

(** X14. When every Item's [listId] is the id of a List, deleting the List
    that [createList] has just resolved with, by its id, gives back both
    collections as they were before the create; only [nextListId] has
    moved.  (An Item created earlier under the id the new List was to get
    would be removed by the cascade.) *)
Theorem create_list_then_delete (ops : list op) (title : value) (now : string) :
  let st := run ops init in
  ref_integrity (observe st) →
  ∃ l st1,
    createList title now st = (Resolve (VRef l), st1) ∧
    let st2 := snd (deleteList (field (heap st1) (VRef l) "id") st1) in
    lists st2 = lists st ∧ items st2 = items st ∧
    nextListId st2 = nextListId st + 1 ∧ nextItemId st2 = nextItemId st.
Proof.
  intros st Hri. assert (Hwf : store_wf st) by apply run_wf, init_wf.
  pose proof (call_observe (CreateList title now) st Hwf) as H1. unfold call in H1.
  destruct (createList_effect title now st Hwf)
    as (l & st1 & E & _ & _ & _ & _ & _ & _ & _ & _ & Hnew & _ & Hwf1).
  rewrite E in H1. cbn [snd] in H1. exists l, st1. split; [done|]. cbv zeta.
  unfold field. rewrite Hnew, list_literal_id.
  pose proof (call_observe (DeleteList (VNum (nextListId st))) st1 Hwf1) as H2.
  unfold call in H2. rewrite H1 in H2.
  set (st2 := snd (deleteList (VNum (nextListId st)) st1)) in *.
  pose proof (f_equal s_lists H2) as HL. pose proof (f_equal s_items H2) as HI.
  pose proof (f_equal s_nextListId H2) as Hn1. pose proof (f_equal s_nextItemId H2) as Hn2.
  cbn [observe step s_lists s_items s_nextListId s_nextItemId] in HL, HI, Hn1, Hn2.
  clear H1 H2.
  destruct (run_list_ids_ok ops) as [Hb _]. fold st in Hb.
  unfold ids_below in Hb. cbn [observe s_lists s_nextListId] in Hb.
  assert (Hold : Forall (λ o, has_id (VNum (nextListId st)) o = false) (lists st)).
  { eapply Forall_impl; [exact Hb|]. intros o (k & Hk & Hlt).
    unfold has_id. rewrite Hk. simpl. apply bool_decide_eq_false. intros [= ->]. lia. }
  split_and!; try done.
  - rewrite HL, filter_app, filter_cons, filter_nil.
    destruct (decide _) as [Ht|_].
    { exfalso. unfold has_id in Ht. by rewrite list_literal_id, strict_eq_num in Ht. }
    rewrite app_nil_r. apply (filter_all (λ o, negb (has_id (VNum (nextListId st)) o))).
    eapply Forall_impl; [exact Hold|]. intros o Ho. simpl in Ho. by rewrite Ho.
  - rewrite HI. apply (filter_all (λ o, negb (in_list (VNum (nextListId st)) o))).
    unfold ref_integrity, knows_list in Hri. cbn [observe s_items s_lists] in Hri.
    eapply Forall_impl; [exact Hri|]. intros i Hi. simpl in Hi.
    apply Exists_exists in Hi as (o & Ho & Hid).
    rewrite Forall_forall in Hold. specialize (Hold o Ho).
    unfold has_id, in_list in *. apply strict_eq_eq in Hid. rewrite <- Hid.
    by rewrite Hold.
Qed.

Lemma create_list_then_delete_witness :
  let st := run groceries init in
  ref_integrity (observe st) ∧
  ∃ l st1,
    createList (VStr "Chores") "2025-01-02T00:00:00.000Z" st = (Resolve (VRef l), st1) ∧
    items (snd (deleteList (field (heap st1) (VRef l) "id") st1)) = items st.
Proof.
  cbv zeta.
  assert (H : ref_integrity (observe (run groceries init))) by compute_done.
  split; [exact H|].
  destruct (create_list_then_delete groceries (VStr "Chores") "2025-01-02T00:00:00.000Z" H)
    as (l & st1 & E & _ & HI & _).
  exists l, st1. split; [exact E | exact HI].
Defined.
